(** * scripts/with-timeout.py: a supervisor with idle and hard timeouts

    A shallow embedding of [kill_tree], [run_with_timeouts] and [main].
    The operating system and the child process are an explicit [world]:
    the clock readings, the readiness sets returned by the selector, what
    [waitpid] observes, what each [readline()] and [communicate()] hands
    back, and the result of every signal delivery.  The supervisor is a
    function from a [world] to an outcome and the list of effects it
    performed, in program order.

    The calls whose failure the script has to live with are answered by
    the world with a value or an exception: [Popen], [readline] (the text
    layer decodes strictly, so undecodable output raises), [os.killpg] and
    [communicate].  The supervisor's own stdout and stderr accept every
    write. *)

From Stdlib Require Import ZArith QArith Bool List String Ascii Lia.
Import ListNotations.

Local Open Scope string_scope.
Local Open Scope list_scope.
Local Open Scope Z_scope.

(** ** Python values as the script uses them *)

Module Py.

(** Truth value of an [int]: [if hard_sec and ...]. *)
Definition truthy_int (n : Z) : bool := negb (n =? 0).

(** Truth value of a [str]: [if line:], [if out:]. *)
Definition truthy_str (s : string) : bool :=
  match s with EmptyString => false | String _ _ => true end.

(** Truth value of a value that is [None] or a list: [if not cmd:]. *)
Definition truthy_opt_list {A} (l : option (list A)) : bool :=
  match l with Some (_ :: _) => true | _ => false end.

(** [x or d] for [x] an [int] or [None]: [proc.returncode or 0]. *)
Definition or_int (x : option Z) (d : Z) : Z :=
  match x with
  | Some c => if truthy_int c then c else d
  | None => d
  end.

(** [elapsed > n] for a float number of seconds and an [int] bound.
    Clock readings are rationals: every finite float is one, and the
    difference of two nearby readings is exact. *)
Definition gt (elapsed : Q) (n : Z) : bool := negb (Qle_bool elapsed (inject_Z n)).

Definition nl : string := String (ascii_of_nat 10) EmptyString.

(** [print(s, file=...)] writes [s] followed by a newline. *)
Definition line (s : string) : string := (s ++ nl)%string.

End Py.

(** ** Data model *)

Inductive stream := Stdout | Stderr.

Inductive signal := SIGTERM | SIGKILL.

Inductive exn :=
| ProcessLookupError
| PermissionError
| FileNotFoundError
| UnicodeDecodeError
| OtherError (name : string).

Inductive outcome (A : Type) :=
| Ret (a : A)
| Raise (e : exn).
Arguments Ret {A} a.
Arguments Raise {A} e.

(** What one call of [readline()] on one of the child's pipes hands back:
    a text (decoded, newlines translated by the text layer; empty at end of
    file), or the exception it raises. *)
Inductive read_result :=
| Line (text : string)
| Garbled (e : exn).

(** What [proc.communicate(timeout=3)] hands back: the two texts it read,
    having waited for the exit code; or an exception, raised before the
    wait ([code] is [None]: a timeout) or after it (undecodable output). *)
Inductive communicated :=
| CommOk (out err : string) (code : Z)
| CommRaises (code : option Z).

(** Effects of the supervisor, in program order. *)
Inductive event :=
| EvSpawn (cmd : list string)           (* Popen(cmd, ..., preexec_fn=os.setsid) *)
| EvRelay (src dst : stream) (text : string)
                                        (* text read from the child's [src], written to our [dst] *)
| EvFlush (dst : stream)
| EvPrint (dst : stream) (text : string)  (* print(..., file=dst) *)
| EvPoll (seen : option Z)              (* proc.poll() and what it returned *)
| EvKillpg (pgid : Z) (sig : signal) (res : option exn)
                                        (* os.killpg(pgid, sig), and the exception it raised *)
| EvSleep (secs : Q)                    (* time.sleep(secs) *)
| EvSelClose.                           (* sel.close() *)

(** One pass of the [while True] body as the environment answers it. *)
Record tick := {
  now_top : Q;                (* time.time() in the hard check *)
  ready : list (stream * Q);  (* keys of sel.select(timeout=1.0), each with
                                 the time.time() read after its readline *)
  now_idle : Q;               (* time.time() in the idle check *)
  waited : option Z           (* what waitpid reports to proc.poll() *)
}.

Record world := {
  clock0 : Q;                     (* start = time.time() *)
  launch : outcome Z;             (* subprocess.Popen: the pid, or the exception *)
  child_out : list read_result;   (* what the successive proc.stdout.readline() give *)
  child_err : list read_result;   (* what the successive proc.stderr.readline() give *)
  ticks : list tick;
  wait0 : option Z;               (* waitpid at [timed_out and proc.poll() is None] *)
  sigterm : option exn;           (* os.killpg(pid, SIGTERM) *)
  grace_obs : list (option Z);    (* waitpid in the grace loop and after it *)
  sigkill : option exn;           (* os.killpg inside kill_tree, after the grace loop *)
  sigkill_fallback : option exn;  (* os.killpg inside kill_tree, in the handler *)
  comm : communicated             (* proc.communicate(timeout=3) *)
}.

(** The [Popen] object and the loop's local [last]. *)
Record state := {
  pid : Z;
  returncode : option Z;
  out_rest : list read_result;   (* readline results still to come on proc.stdout *)
  err_rest : list read_result;   (* readline results still to come on proc.stderr *)
  last : Q
}.

Definition set_returncode (rc : option Z) (st : state) : state :=
  {| pid := pid st; returncode := rc; out_rest := out_rest st;
     err_rest := err_rest st; last := last st |}.

Definition set_last (t : Q) (st : state) : state :=
  {| pid := pid st; returncode := returncode st; out_rest := out_rest st;
     err_rest := err_rest st; last := t |}.

Definition rest_of (s : stream) (st : state) : list read_result :=
  match s with Stdout => out_rest st | Stderr => err_rest st end.

Definition set_rest (s : stream) (l : list read_result) (st : state) : state :=
  match s with
  | Stdout => {| pid := pid st; returncode := returncode st; out_rest := l;
                 err_rest := err_rest st; last := last st |}
  | Stderr => {| pid := pid st; returncode := returncode st; out_rest := out_rest st;
                 err_rest := l; last := last st |}
  end.

(** [key.fileobj.readline()]: the next result the world has for that pipe;
    past the last one, the empty string of end of file. *)
Definition readline (s : stream) (st : state) : outcome string * state :=
  match rest_of s st with
  | [] => (Ret EmptyString, st)
  | Line l :: rs => (Ret l, set_rest s rs st)
  | Garbled e :: rs => (Raise e, set_rest s rs st)
  end.

(** [proc.poll()]: a code already set is returned as it is; otherwise the
    [waitpid] observation is stored and returned. *)
Definition poll (obs : option Z) (st : state) : option Z * state :=
  match returncode st with
  | Some c => (Some c, st)
  | None => (obs, set_returncode obs st)
  end.

(** ** kill_tree *)

Definition kill_tree (p : Z) (sig : signal) (res : option exn) : outcome unit * list event :=
  match res with
  | None => (Ret tt, [EvKillpg p sig None])
  | Some ProcessLookupError => (Ret tt, [EvKillpg p sig (Some ProcessLookupError)])
  | Some e => (Raise e, [EvKillpg p sig (Some e)])
  end.

(** ** run_with_timeouts: the monitoring loop *)

Definition hard_msg : string :=
  Py.line (Py.nl ++ "🔥 TIMEOUT: hard limit exceeded — killing process…")%string.

Definition idle_msg : string :=
  Py.line (Py.nl ++ "🔥 TIMEOUT: idle limit exceeded — killing process…")%string.

(** [if key.fileobj is proc.stdout: sys.stdout ... else: sys.stderr ...] *)
Definition sink (key : stream) : stream :=
  match key with Stdout => Stdout | Stderr => Stderr end.

(** [for key, _ in events: ...]; an exception of [readline] ends it. *)
Fixpoint relay_ready (evs : list (stream * Q)) (st : state)
  : outcome unit * state * list event :=
  match evs with
  | [] => (Ret tt, st, [])
  | (key, t) :: evs' =>
      match readline key st with
      | (Raise e, st1) => (Raise e, st1, [])
      | (Ret ln, st1) =>
          if Py.truthy_str ln then
            let '(o, st2, tr) := relay_ready evs' (set_last t st1) in
            (o, st2, EvRelay key (sink key) ln :: EvFlush (sink key) :: tr)
          else relay_ready evs' st1
      end
  end.

Inductive flow :=
| Continue (st : state)
| Break (timed_out : bool) (st : state)
| Crash (e : exn) (st : state).     (* an exception leaves the loop *)

Definition hard_expired (hard_sec : Z) (start now : Q) : bool :=
  Py.truthy_int hard_sec && Py.gt (now - start) hard_sec.

Definition idle_expired (idle_sec : Z) (last_seen now : Q) : bool :=
  Py.truthy_int idle_sec && Py.gt (now - last_seen) idle_sec.

(** [if proc.poll() is not None: break] *)
Definition poll_break (obs : option Z) (st : state) : flow * list event :=
  let (r, st') := poll obs st in
  match r with
  | Some _ => (Break false st', [EvPoll r])
  | None => (Continue st', [EvPoll r])
  end.

(** One pass of the body of [while True]. *)
Definition iteration (idle_sec hard_sec : Z) (start : Q) (tk : tick) (st : state)
  : flow * list event :=
  if hard_expired hard_sec start (now_top tk) then
    (Break true st, [EvPrint Stderr hard_msg])
  else
    match ready tk with
    | _ :: _ =>
        match relay_ready (ready tk) st with
        | (Raise e, st1, tr) => (Crash e st1, tr)
        | (Ret _, st1, tr) =>
            let (fl, tr') := poll_break (waited tk) st1 in
            (fl, tr ++ tr')
        end
    | [] =>
        if idle_expired idle_sec (last st) (now_idle tk) then
          (Break true st, [EvPrint Stderr idle_msg])
        else poll_break (waited tk) st
    end.

(** The loop: it ends with [timed_out] set or not ([Ret]), or an exception
    leaves it ([Raise]).  [None]: the observations ran out with the loop
    still running. *)
Fixpoint monitor (idle_sec hard_sec : Z) (start : Q) (tks : list tick) (st : state)
  : option (outcome bool * state * list event) :=
  match tks with
  | [] => None
  | tk :: tks' =>
      match iteration idle_sec hard_sec start tk st with
      | (Break timed_out st', tr) => Some (Ret timed_out, st', tr)
      | (Crash e st', tr) => Some (Raise e, st', tr)
      | (Continue st', tr) =>
          match monitor idle_sec hard_sec start tks' st' with
          | Some (v, st'', tr') => Some (v, st'', tr ++ tr')
          | None => None
          end
      end
  end.

(** ** run_with_timeouts: termination, drain and result *)

(** [proc.poll()] answered by the next pending [waitpid] observation. *)
Definition poll_next (obs : list (option Z)) (st : state)
  : option Z * state * list (option Z) :=
  match returncode st with
  | Some c => (Some c, st, obs)
  | None =>
      match obs with
      | [] => (None, st, [])
      | o :: obs' => (o, set_returncode o st, obs')
      end
  end.

(** [for _ in range(n): if proc.poll() is not None: break; time.sleep(0.2)] *)
Fixpoint grace (n : nat) (obs : list (option Z)) (st : state)
  : state * list (option Z) * list event :=
  match n with
  | O => (st, obs, [])
  | S n' =>
      let '(r, st1, obs1) := poll_next obs st in
      match r with
      | Some _ => (st1, obs1, [EvPoll r])
      | None =>
          let '(st2, obs2, tr) := grace n' obs1 st1 in
          (st2, obs2, EvPoll None :: EvSleep (2 # 10) :: tr)
      end
  end.

(** The body of [try:] under [if timed_out and proc.poll() is None:]. *)
Definition graceful_stop (w : world) (st : state) : outcome unit * state * list event :=
  match sigterm w with
  | Some e => (Raise e, st, [EvKillpg (pid st) SIGTERM (Some e)])
  | None =>
      let '(st1, obs1, tr1) := grace 10 (grace_obs w) st in
      let '(r, st2, _) := poll_next obs1 st1 in
      let tr := EvKillpg (pid st) SIGTERM None :: tr1 ++ [EvPoll r] in
      match r with
      | Some _ => (Ret tt, st2, tr)
      | None =>
          let (o, tr2) := kill_tree (pid st2) SIGKILL (sigkill w) in
          (o, st2, tr ++ tr2)
      end
  end.

(** [if timed_out and proc.poll() is None: try: ... except Exception: kill_tree(...)] *)
Definition terminate (timed_out : bool) (w : world) (st : state)
  : outcome unit * state * list event :=
  if timed_out then
    let (r0, st0) := poll (wait0 w) st in
    match r0 with
    | Some _ => (Ret tt, st0, [EvPoll r0])
    | None =>
        match graceful_stop w st0 with
        | (Ret _, st1, tr) => (Ret tt, st1, EvPoll None :: tr)
        | (Raise _, st1, tr) =>
            let (o, tr') := kill_tree (pid st1) SIGKILL (sigkill_fallback w) in
            (o, st1, EvPoll None :: tr ++ tr')
        end
    end
  else (Ret tt, st, []).

(** The text of a sequence of lines. *)
Definition concat_lines (ls : list string) : string := fold_right String.append "" ls.

(** [proc.wait()] inside [communicate]: a code already set stays. *)
Definition waited_code (rc now : option Z) : option Z :=
  match rc with Some r => Some r | None => now end.

(** [out, err = proc.communicate(timeout=3)], the two writes, and
    [except Exception: pass] for its failure. *)
Definition drain (c : communicated) (st : state) : state * list event :=
  match c with
  | CommRaises code => (set_returncode (waited_code (returncode st) code) st, [])
  | CommOk out err code =>
      ({| pid := pid st;
          returncode := waited_code (returncode st) (Some code);
          out_rest := []; err_rest := []; last := last st |},
       (if Py.truthy_str out then [EvRelay Stdout Stdout out] else [])
       ++ (if Py.truthy_str err then [EvRelay Stderr Stderr err] else []))
  end.

(** [if timed_out: return 124; return proc.returncode or 0] *)
Definition result_code (timed_out : bool) (rc : option Z) : Z :=
  if timed_out then 124 else Py.or_int rc 0.

Definition popen (w : world) (p : Z) : state :=
  {| pid := p; returncode := None; out_rest := child_out w;
     err_rest := child_err w; last := clock0 w |}.

(** [None]: the monitoring loop is still running when the observations end.
    An exception that leaves the loop passes [finally: sel.close()] and
    leaves the function. *)
Definition run_with_timeouts (cmd : list string) (idle_sec hard_sec : Z) (w : world)
  : option (outcome Z * list event) :=
  match launch w with
  | Raise e => Some (Raise e, [])
  | Ret p =>
      match monitor idle_sec hard_sec (clock0 w) (ticks w) (popen w p) with
      | None => None
      | Some (Raise e, _, tr1) => Some (Raise e, EvSpawn cmd :: tr1 ++ [EvSelClose])
      | Some (Ret timed_out, st1, tr1) =>
          let tr := EvSpawn cmd :: tr1 ++ [EvSelClose] in
          match terminate timed_out w st1 with
          | (Raise e, _, tr2) => Some (Raise e, tr ++ tr2)
          | (Ret _, st2, tr2) =>
              let (st3, tr3) := drain (comm w) st2 in
              Some (Ret (result_code timed_out (returncode st3)), tr ++ tr2 ++ tr3)
          end
      end
  end.

(** ** main and the script *)

(** What [ap.parse_known_args()] hands back. *)
Record args := {
  idle : Z;                         (* --idle, type=int, default=0 *)
  hard : Z;                         (* --hard, type=int, default=0 *)
  dashdash : option (list string)   (* dest="dashdash", nargs=REMAINDER *)
}.

Definition usage_msg : string :=
  Py.line "Usage: with-timeout.py --idle <sec> --hard <sec> -- <command> [args…]".

(** [if args.dashdash: dd = args.dashdash; if dd and dd[0] == "--": dd = dd[1:]; cmd = dd] *)
Definition cmd_of_dashdash (dd : option (list string)) : option (list string) :=
  match dd with
  | Some (d :: ds) => Some (if String.eqb d "--" then ds else d :: ds)
  | _ => None
  end.

(** [sys.argv[sys.argv.index("--") + 1 :]], or [None] when ["--"] is not in [sys.argv]. *)
Fixpoint after_dashdash (argv : list string) : option (list string) :=
  match argv with
  | [] => None
  | a :: argv' => if String.eqb a "--" then Some argv' else after_dashdash argv'
  end.

Definition resolve_cmd (a : args) (argv : list string) : option (list string) :=
  let cmd := cmd_of_dashdash (dashdash a) in
  if Py.truthy_opt_list cmd then cmd
  else match after_dashdash argv with
       | Some rest => Some rest
       | None => cmd
       end.

(** How a call of [main] ends. *)
Inductive ending :=
| Returned (v : Z)       (* return v *)
| SysExit (rc : Z)       (* sys.exit(rc) *)
| Uncaught (e : exn).    (* an exception leaves main *)

Definition main (a : args) (argv : list string) (w : world)
  : option (ending * list event) :=
  match resolve_cmd a argv with
  | Some (c :: cs) =>
      match run_with_timeouts (c :: cs) (idle a) (hard a) w with
      | None => None
      | Some (Ret rc, tr) => Some (SysExit rc, tr)
      | Some (Raise e, tr) => Some (Uncaught e, tr)
      end
  | _ => Some (Returned 2, [EvPrint Stderr usage_msg])
  end.

(** [if __name__ == "__main__": main()]: the value [main] returns is dropped, a
    [SystemExit] carries its code (low eight bits), an uncaught exception
    ends the interpreter with status 1. *)
Definition exit_status (e : ending) : Z :=
  match e with
  | Returned _ => 0
  | SysExit rc => rc mod 256
  | Uncaught _ => 1
  end.

Definition script (a : args) (argv : list string) (w : world)
  : option (Z * list event) :=
  match main a argv w with
  | Some (e, tr) => Some (exit_status e, tr)
  | None => None
  end.

(** ** Observations on a trace *)

Definition stream_eqb (a b : stream) : bool :=
  match a, b with
  | Stdout, Stdout | Stderr, Stderr => true
  | _, _ => false
  end.

(** The child's text that reached the supervisor's stream [dst], in order. *)
Definition relayed (dst : stream) (tr : list event) : list string :=
  flat_map (fun e => match e with
                     | EvRelay _ d text => if stream_eqb d dst then [text] else []
                     | _ => []
                     end) tr.

(** What the supervisor printed of its own. *)
Definition diagnostics (tr : list event) : list string :=
  flat_map (fun e => match e with EvPrint _ text => [text] | _ => [] end) tr.

(** The signals sent, with the process group they went to. *)
Definition signals (tr : list event) : list (Z * signal) :=
  flat_map (fun e => match e with EvKillpg g s _ => [(g, s)] | _ => [] end) tr.

Definition sleeps (tr : list event) : list Q :=
  flat_map (fun e => match e with EvSleep d => [d] | _ => [] end) tr.

Definition spawns (tr : list event) : list (list string) :=
  flat_map (fun e => match e with EvSpawn c => [c] | _ => [] end) tr.

(** A failure of [os.killpg] that [kill_tree] lets through. *)
Definition escapes (res : option exn) : bool :=
  match res with
  | None | Some ProcessLookupError => false
  | Some _ => true
  end.

Definition is_none {A} (o : option A) : bool :=
  match o with None => true | Some _ => false end.

(** The child is not seen to exit by any [poll] of the grace window:
    the ten of the loop and the one after it. *)
Definition alive_after_grace (obs : list (option Z)) : bool :=
  forallb is_none (firstn 11 obs).

(** [n] rounds of an unsuccessful [poll] followed by [time.sleep(0.2)]. *)
Definition grace_window (n : nat) : list event :=
  List.concat (repeat [EvPoll None; EvSleep (2 # 10)] n).

(** A relayed text went to the supervisor's stream of the same name. *)
Definition origin_kept (e : event) : Prop :=
  match e with
  | EvRelay src dst _ => dst = src
  | _ => True
  end.

(** Everything but a relayed text. *)
Definition control (e : event) : bool :=
  match e with EvRelay _ _ _ => false | _ => true end.

(** The texts among the results of [readline]. *)
Definition texts (rs : list read_result) : list string :=
  flat_map (fun r => match r with Line l => [l] | Garbled _ => [] end) rs.

(** From [st] to [st'], the text relayed to [s] and the text of the reads
    of [s] still to come make up the text of the reads that were to come. *)
Definition conserves (s : stream) (st : state) (tr : list event) (st' : state) : Prop :=
  (concat_lines (relayed s tr) ++ concat_lines (texts (rest_of s st')))%string
  = concat_lines (texts (rest_of s st)).

(** The state a pass of the loop leaves behind. *)
Definition flow_state (fl : flow) : state :=
  match fl with Continue st | Break _ st | Crash _ st => st end.

(** What the successive [readline()] on the child's [s] give. *)
Definition reads_of (s : stream) (w : world) : list read_result :=
  match s with Stdout => child_out w | Stderr => child_err w end.

(** The text [communicate()] returned for the child's [s]. *)
Definition drained_text (s : stream) (out err : string) : string :=
  match s with Stdout => out | Stderr => err end.

(** A result of [readline] that is a text, not an exception. *)
Definition decodes (r : read_result) : Prop :=
  match r with Line _ => True | Garbled _ => False end.

(** No [readline] still to come on the child's pipes raises. *)
Definition readable (st : state) : Prop :=
  Forall decodes (out_rest st) /\ Forall decodes (err_rest st).




(** The same world with every signal delivered. *)
Definition delivered (w : world) : world :=
  {| clock0 := clock0 w; launch := launch w; child_out := child_out w;
     child_err := child_err w; ticks := ticks w; wait0 := wait0 w;
     sigterm := None; grace_obs := grace_obs w; sigkill := None;
     sigkill_fallback := None; comm := comm w |}.

(** ** Sample runs *)

Definition text_line (s : string) : string := (s ++ Py.nl)%string.

(** A child that writes a line on each stream and exits with code 3. *)
Definition w_hello : world :=
  {| clock0 := 0; launch := Ret 4242;
     child_out := [Line (text_line "a")]; child_err := [Line (text_line "e")];
     ticks := [ {| now_top := 1 # 10; ready := [(Stdout, 1 # 10); (Stderr, 1 # 10)];
                   now_idle := 1 # 10; waited := None |};
                {| now_top := 2 # 10; ready := [(Stdout, 2 # 10)];
                   now_idle := 2 # 10; waited := Some 3 |} ];
     wait0 := Some 3; sigterm := None; grace_obs := []; sigkill := None;
     sigkill_fallback := None; comm := CommOk "" "" 3 |}.

(** Two passes of one second each in which nothing is ready. *)
Definition silent_ticks : list tick :=
  [ {| now_top := 1 # 10; ready := []; now_idle := 11 # 10; waited := None |};
    {| now_top := 12 # 10; ready := []; now_idle := 22 # 10; waited := None |} ].

(** A silent child that ends on SIGTERM during the grace window. *)
Definition w_stuck : world :=
  {| clock0 := 0; launch := Ret 4242; child_out := []; child_err := [];
     ticks := silent_ticks;
     wait0 := None; sigterm := None; grace_obs := [None; None; Some (-15)];
     sigkill := None; sigkill_fallback := None; comm := CommOk "" "" (-15) |}.

(** A silent child of another user: no signal may be sent to its group. *)
Definition w_denied : world :=
  {| clock0 := 0; launch := Ret 4242; child_out := []; child_err := [];
     ticks := silent_ticks;
     wait0 := None; sigterm := Some PermissionError; grace_obs := [];
     sigkill := Some PermissionError; sigkill_fallback := Some PermissionError;
     comm := CommRaises None |}.

(** A silent child that ignores SIGTERM and cannot be sent SIGKILL. *)
Definition w_unkillable : world :=
  {| clock0 := 0; launch := Ret 4242; child_out := []; child_err := [];
     ticks := silent_ticks;
     wait0 := None; sigterm := None; grace_obs := [];
     sigkill := Some PermissionError; sigkill_fallback := Some PermissionError;
     comm := CommRaises None |}.

(** SIGTERM is refused, the fallback SIGKILL is delivered. *)
Definition w_term_refused : world :=
  {| clock0 := 0; launch := Ret 4242; child_out := []; child_err := [];
     ticks := silent_ticks;
     wait0 := None; sigterm := Some PermissionError; grace_obs := [];
     sigkill := None; sigkill_fallback := None; comm := CommOk "" "" (-9) |}.

(** A silent child that ignores SIGTERM and is killed after the grace window. *)
Definition w_stubborn : world :=
  {| clock0 := 0; launch := Ret 4242; child_out := []; child_err := [];
     ticks := silent_ticks;
     wait0 := None; sigterm := None; grace_obs := [];
     sigkill := None; sigkill_fallback := None; comm := CommOk "" "" (-9) |}.

(** A child that has written one line and exited with code 0 by the
    time the loop is entered. *)
Definition w_echo : world :=
  {| clock0 := 0; launch := Ret 4242; child_out := [Line (text_line "hi")]; child_err := [];
     ticks := [ {| now_top := 1 # 100; ready := [(Stdout, 1 # 100)];
                   now_idle := 1 # 100; waited := Some 0 |} ];
     wait0 := Some 0; sigterm := None; grace_obs := []; sigkill := None;
     sigkill_fallback := None; comm := CommOk (text_line "hi") "" 0 |}.

(** The executable does not exist. *)
Definition w_missing : world :=
  {| clock0 := 0; launch := Raise FileNotFoundError; child_out := []; child_err := [];
     ticks := []; wait0 := None; sigterm := None; grace_obs := []; sigkill := None;
     sigkill_fallback := None; comm := CommRaises None |}.

(** A pass entered 1.2 s after launch, with output ready on stdout. *)
Definition late_tick : tick :=
  {| now_top := 12 # 10; ready := [(Stdout, 12 # 10)]; now_idle := 12 # 10;
     waited := None |}.

(** A pass whose wait of one second finds nothing ready. *)
Definition quiet_tick : tick :=
  {| now_top := 1 # 10; ready := []; now_idle := 11 # 10; waited := None |}.


Definition args_of (i h : Z) : args := {| idle := i; hard := h; dashdash := None |}.

(** ** Phases of a run *)

(** What the monitoring loop does: read and relay, print a marker, poll. *)
Definition loop_event (e : event) : bool :=
  match e with
  | EvRelay _ _ _ | EvFlush _ | EvPrint _ _ | EvPoll _ => true
  | _ => false
  end.

(** What happens once the selector is closed: poll, signal, sleep, drain. *)
Definition closing_event (e : event) : bool :=
  match e with
  | EvPoll _ | EvKillpg _ _ _ | EvSleep _ | EvRelay _ _ _ => true
  | _ => false
  end.

(** How often the selector reported the stream [s] in one readiness set. *)
Definition occurrences (s : stream) (evs : list (stream * Q)) : nat :=
  List.length (filter (fun ev => stream_eqb (fst ev) s) evs).


(** A pass entered no later than [hard_sec] seconds after [start]. *)
Definition within_hard (hard_sec : Z) (start : Q) (tk : tick) : Prop :=
  (now_top tk - start <= inject_Z hard_sec)%Q.


(** A child that exits with code 0 just as the hard limit of one second
    is reached, not exceeded. *)
Definition w_on_time : world :=
  {| clock0 := 0; launch := Ret 4242; child_out := []; child_err := [];
     ticks := [ {| now_top := 1 # 1; ready := []; now_idle := 2 # 1; waited := Some 0 |} ];
     wait0 := Some 0; sigterm := None; grace_obs := []; sigkill := None;
     sigkill_fallback := None; comm := CommOk "" "" 0 |}.

(** * Properties *)

(** ** Python comparisons *)

Section Comparisons.

Lemma gt_true (x : Q) (n : Z) : Py.gt x n = true <-> (inject_Z n < x)%Q.
Proof.
  unfold Py.gt. rewrite negb_true_iff. split.
  - intros H. apply Qnot_le_lt. intros Hle.
    apply Qle_bool_iff in Hle. congruence.
  - intros H. destruct (Qle_bool x (inject_Z n)) eqn:E; [|reflexivity].
    apply Qle_bool_iff in E. exfalso. exact (Qlt_not_le _ _ H E).
Qed.

Lemma truthy_int_nonzero (n : Z) : n <> 0 -> Py.truthy_int n = true.
Proof. intros H. unfold Py.truthy_int. apply negb_true_iff, Z.eqb_neq, H. Qed.

Lemma hard_expired_true (hard_sec : Z) (start now : Q) :
  hard_sec <> 0 -> (inject_Z hard_sec < now - start)%Q ->
  hard_expired hard_sec start now = true.
Proof.
  intros Hnz Hlt. unfold hard_expired.
  rewrite truthy_int_nonzero by assumption. apply gt_true, Hlt.
Qed.

Lemma idle_expired_true (idle_sec : Z) (seen now : Q) :
  idle_sec <> 0 -> (inject_Z idle_sec < now - seen)%Q ->
  idle_expired idle_sec seen now = true.
Proof.
  intros Hnz Hlt. unfold idle_expired.
  rewrite truthy_int_nonzero by assumption. apply gt_true, Hlt.
Qed.

Lemma hard_expired_disabled (start now : Q) : hard_expired 0 start now = false.
Proof. reflexivity. Qed.

Lemma idle_expired_disabled (seen now : Q) : idle_expired 0 seen now = false.
Proof. reflexivity. Qed.

(** A negative bound lies below every elapsed time of a clock that has
    not been set back. *)
Lemma negative_below_elapsed (n : Z) (earlier now : Q) :
  n < 0 -> (earlier <= now)%Q -> (inject_Z n < now - earlier)%Q.
Proof.
  intros Hn Hle.
  apply Qlt_le_trans with (y := 0%Q).
  - change 0%Q with (inject_Z 0). rewrite <- Zlt_Qlt. exact Hn.
  - apply (Qplus_le_l _ _ earlier). ring_simplify. exact Hle.
Qed.

Lemma messages_differ : hard_msg <> idle_msg.
Proof.
  intros H. apply (f_equal (String.eqb hard_msg)) in H.
  rewrite String.eqb_refl in H. vm_compute in H. discriminate.
Qed.

End Comparisons.

(** ** Traces of the loop body *)

Section LoopTraces.

Variables idle_sec hard_sec : Z.
Variable start : Q.

Lemma diagnostics_app (a b : list event) :
  diagnostics (a ++ b) = diagnostics a ++ diagnostics b.
Proof. apply flat_map_app. Qed.

Lemma signals_app (a b : list event) : signals (a ++ b) = signals a ++ signals b.
Proof. apply flat_map_app. Qed.

Lemma relayed_app (s : stream) (a b : list event) :
  relayed s (a ++ b) = relayed s a ++ relayed s b.
Proof. apply flat_map_app. Qed.

Lemma relay_ready_quiet (evs : list (stream * Q)) (st : state) :
  diagnostics (snd (relay_ready evs st)) = []
  /\ signals (snd (relay_ready evs st)) = [].
Proof.
  revert st. induction evs as [|[key t] evs IH]; intros st; cbn; [now split|].
  destruct (readline key st) as [[ln|e] st1]; [|now split].
  destruct (Py.truthy_str ln); [|apply IH].
  specialize (IH (set_last t st1)).
  destruct (relay_ready evs (set_last t st1)) as [[o st2] tr]. exact IH.
Qed.

Lemma poll_break_quiet (obs : option Z) (st : state) :
  diagnostics (snd (poll_break obs st)) = []
  /\ signals (snd (poll_break obs st)) = [].
Proof.
  unfold poll_break. destruct (poll obs st) as [[c|] st']; now split.
Qed.

(** What one pass prints: the marker of the timeout it detected, if any. *)
Lemma iteration_diagnostics (tk : tick) (st : state) :
  diagnostics (snd (iteration idle_sec hard_sec start tk st)) =
    if hard_expired hard_sec start (now_top tk) then [hard_msg]
    else match ready tk with
         | [] => if idle_expired idle_sec (last st) (now_idle tk) then [idle_msg] else []
         | _ :: _ => []
         end.
Proof.
  unfold iteration.
  destruct (hard_expired hard_sec start (now_top tk)); [reflexivity|].
  destruct (ready tk) as [|ev evs].
  - destruct (idle_expired idle_sec (last st) (now_idle tk)); [reflexivity|].
    apply poll_break_quiet.
  - pose proof (relay_ready_quiet (ev :: evs) st) as [Hd _].
    destruct (relay_ready (ev :: evs) st) as [[[[]|e] st1] tr];
      cbn [snd] in Hd; [|exact Hd].
    pose proof (poll_break_quiet (waited tk) st1) as [Hp _].
    destruct (poll_break (waited tk) st1) as [fl tr'].
    cbn [snd] in *. rewrite diagnostics_app, Hd, Hp. reflexivity.
Qed.

Lemma iteration_signals (tk : tick) (st : state) :
  signals (snd (iteration idle_sec hard_sec start tk st)) = [].
Proof.
  unfold iteration.
  destruct (hard_expired hard_sec start (now_top tk)); [reflexivity|].
  destruct (ready tk) as [|ev evs].
  - destruct (idle_expired idle_sec (last st) (now_idle tk)); [reflexivity|].
    apply poll_break_quiet.
  - pose proof (relay_ready_quiet (ev :: evs) st) as [_ Hd].
    destruct (relay_ready (ev :: evs) st) as [[[[]|e] st1] tr];
      cbn [snd] in Hd; [|exact Hd].
    pose proof (poll_break_quiet (waited tk) st1) as [_ Hp].
    destruct (poll_break (waited tk) st1) as [fl tr'].
    cbn [snd] in *. rewrite signals_app, Hd, Hp. reflexivity.
Qed.

(** Every marker printed by the loop belongs to an enabled policy. *)
Lemma monitor_diagnostics (tks : list tick) :
  forall st v st' tr,
    monitor idle_sec hard_sec start tks st = Some (v, st', tr) ->
    forall m, In m (diagnostics tr) ->
      (m = hard_msg /\ Py.truthy_int hard_sec = true)
      \/ (m = idle_msg /\ Py.truthy_int idle_sec = true).
Proof.
  induction tks as [|tk tks IH]; intros st v st' tr H m Hin; [discriminate|].
  cbn [monitor] in H.
  pose proof (iteration_diagnostics tk st) as Hd.
  assert (Hone : forall m0,
             In m0 (diagnostics (snd (iteration idle_sec hard_sec start tk st))) ->
             (m0 = hard_msg /\ Py.truthy_int hard_sec = true)
             \/ (m0 = idle_msg /\ Py.truthy_int idle_sec = true)).
  { intros m0. rewrite Hd. unfold hard_expired, idle_expired.
    destruct (Py.truthy_int hard_sec); cbn [andb].
    - destruct (Py.gt (now_top tk - start) hard_sec).
      + intros [<-|[]]. now left.
      + destruct (ready tk); [|intros []].
        destruct (Py.truthy_int idle_sec); cbn [andb]; [|intros []].
        destruct (Py.gt _ _); [|intros []]. intros [<-|[]]. now right.
    - destruct (ready tk); [|intros []].
      destruct (Py.truthy_int idle_sec); cbn [andb]; [|intros []].
      destruct (Py.gt _ _); [|intros []]. intros [<-|[]]. now right. }
  destruct (iteration idle_sec hard_sec start tk st) as [[st1|b st1|e st1] tr1].
  - destruct (monitor idle_sec hard_sec start tks st1) as [[[b2 st2] tr2]|] eqn:E;
      [|discriminate].
    injection H as <- <- <-. rewrite diagnostics_app in Hin.
    apply in_app_or in Hin as [Hin|Hin]; [apply Hone, Hin|].
    eapply IH; eauto.
  - injection H as <- <- <-. apply Hone, Hin.
  - injection H as <- <- <-. apply Hone, Hin.
Qed.

Lemma monitor_signals (tks : list tick) :
  forall st v st' tr,
    monitor idle_sec hard_sec start tks st = Some (v, st', tr) ->
    signals tr = [].
Proof.
  induction tks as [|tk tks IH]; intros st v st' tr H; [discriminate|].
  cbn [monitor] in H. pose proof (iteration_signals tk st) as Hs.
  destruct (iteration idle_sec hard_sec start tk st) as [[st1|b st1|e st1] tr1];
    cbn [snd] in Hs.
  - destruct (monitor idle_sec hard_sec start tks st1) as [[[b2 st2] tr2]|] eqn:E;
      [|discriminate].
    injection H as <- <- <-. rewrite signals_app, Hs. cbn. eapply IH, E.
  - injection H as <- <- <-. exact Hs.
  - injection H as <- <- <-. exact Hs.
Qed.

End LoopTraces.

(** ** The two timeout checks *)

(** C4.  At the top of any pass of the loop, with the hard timeout enabled
    ([hard_sec > 0]) and the time since launch strictly above [hard_sec], the
    run is marked timed out and the loop ends there, whatever output is
    ready (none of it is read).  With [hard_sec = 0] the hard condition is
    false at every reading of the clock and the loop never prints the
    hard-limit marker. *)
Theorem hard_timeout_at_top_of_iteration :
  forall (idle_sec hard_sec : Z) (start : Q) (tk : tick) (tks : list tick) (st : state),
    (0 < hard_sec -> (inject_Z hard_sec < now_top tk - start)%Q ->
     monitor idle_sec hard_sec start (tk :: tks) st
     = Some (Ret true, st, [EvPrint Stderr hard_msg]))
    /\ (hard_sec = 0 ->
        hard_expired hard_sec start (now_top tk) = false
        /\ forall timed_out st' tr,
            monitor idle_sec hard_sec start (tk :: tks) st = Some (Ret timed_out, st', tr) ->
            ~ In hard_msg (diagnostics tr)).
Proof.
  intros idle_sec hard_sec start tk tks st. split.
  - intros Hpos Hlt. cbn [monitor]. unfold iteration.
    rewrite hard_expired_true by (assumption || lia). reflexivity.
  - intros ->. split; [apply hard_expired_disabled|].
    intros timed_out st' tr H Hin.
    destruct (monitor_diagnostics _ _ _ _ _ _ _ _ H _ Hin) as [[_ Hen]|[Heq _]].
    + discriminate Hen.
    + exact (messages_differ Heq).
Qed.

Lemma hard_timeout_at_top_of_iteration_witness :
  (0 < 1 /\ (inject_Z 1 < now_top late_tick - 0)%Q)
  /\ monitor 0 1 0 [late_tick] (popen w_stuck 4242)
     = Some (Ret true, popen w_stuck 4242, [EvPrint Stderr hard_msg])
  /\ hard_expired 0 0 (now_top late_tick) = false.
Proof.
  assert (H1 : 0 < 1) by reflexivity.
  assert (H2 : (inject_Z 1 < now_top late_tick - 0)%Q) by reflexivity.
  split; [now split|]. split.
  - exact (proj1 (hard_timeout_at_top_of_iteration 0 1 0 late_tick []
                    (popen w_stuck 4242)) H1 H2).
  - exact (proj1 (proj2 (hard_timeout_at_top_of_iteration 0 0 0 late_tick []
                           (popen w_stuck 4242)) eq_refl)).
Defined.

(** C5.  In a pass that reached the readiness wait: when some stream was
    ready the idle condition is not looked at (the pass is the same for
    every [idle_sec], prints no marker and does not mark a timeout); when
    none was ready, [idle_sec > 0] and the time since the last output is
    strictly above [idle_sec], the run is marked timed out and the loop
    ends.  With [idle_sec = 0] the idle condition is false at every reading
    and the loop never prints the idle-limit marker. *)
Theorem idle_timeout_only_without_output :
  forall (idle_sec hard_sec : Z) (start : Q) (tk : tick) (tks : list tick) (st : state),
    (hard_expired hard_sec start (now_top tk) = false -> ready tk <> [] ->
     iteration idle_sec hard_sec start tk st = iteration 0 hard_sec start tk st
     /\ diagnostics (snd (iteration idle_sec hard_sec start tk st)) = []
     /\ forall st', fst (iteration idle_sec hard_sec start tk st) <> Break true st')
    /\ (hard_expired hard_sec start (now_top tk) = false -> ready tk = [] ->
        0 < idle_sec -> (inject_Z idle_sec < now_idle tk - last st)%Q ->
        monitor idle_sec hard_sec start (tk :: tks) st
        = Some (Ret true, st, [EvPrint Stderr idle_msg]))
    /\ (idle_sec = 0 ->
        idle_expired idle_sec (last st) (now_idle tk) = false
        /\ forall timed_out st' tr,
            monitor idle_sec hard_sec start (tk :: tks) st = Some (Ret timed_out, st', tr) ->
            ~ In idle_msg (diagnostics tr)).
Proof.
  intros idle_sec hard_sec start tk tks st. split; [|split].
  - intros Hhard Hready. split; [|split].
    + unfold iteration. rewrite Hhard.
      destruct (ready tk); [contradiction|reflexivity].
    + rewrite iteration_diagnostics, Hhard.
      destruct (ready tk); [contradiction|reflexivity].
    + intros st'. unfold iteration. rewrite Hhard.
      destruct (ready tk) as [|ev evs]; [contradiction|].
      destruct (relay_ready (ev :: evs) st) as [[[[]|e] st1] tr];
        [|cbn; discriminate].
      unfold poll_break. destruct (poll (waited tk) st1) as [[c|] st2];
        cbn; discriminate.
  - intros Hhard Hready Hpos Hlt. cbn [monitor]. unfold iteration.
    rewrite Hhard, Hready, idle_expired_true by (assumption || lia). reflexivity.
  - intros ->. split; [apply idle_expired_disabled|].
    intros timed_out st' tr H Hin.
    destruct (monitor_diagnostics _ _ _ _ _ _ _ _ H _ Hin) as [[Heq _]|[_ Hen]].
    + exact (messages_differ (eq_sym Heq)).
    + discriminate Hen.
Qed.

Lemma idle_timeout_only_without_output_witness :
  (hard_expired 0 0 (now_top quiet_tick) = false /\ ready quiet_tick = []
   /\ 0 < 1 /\ (inject_Z 1 < now_idle quiet_tick - last (popen w_stuck 4242))%Q)
  /\ monitor 1 0 0 [quiet_tick] (popen w_stuck 4242)
     = Some (Ret true, popen w_stuck 4242, [EvPrint Stderr idle_msg])
  /\ iteration 1 0 0 late_tick (popen w_stuck 4242)
     = iteration 0 0 0 late_tick (popen w_stuck 4242)
  /\ idle_expired 0 (last (popen w_stuck 4242)) (now_idle quiet_tick) = false.
Proof.
  assert (H1 : hard_expired 0 0 (now_top quiet_tick) = false) by reflexivity.
  assert (H2 : ready quiet_tick = []) by reflexivity.
  assert (H3 : 0 < 1) by reflexivity.
  assert (H4 : (inject_Z 1 < now_idle quiet_tick - last (popen w_stuck 4242))%Q)
    by reflexivity.
  assert (H5 : ready late_tick <> []) by discriminate.
  split; [now repeat split|]. split; [|split].
  - exact (proj1 (proj2 (idle_timeout_only_without_output 1 0 0 quiet_tick []
                           (popen w_stuck 4242))) H1 H2 H3 H4).
  - exact (proj1 (proj1 (idle_timeout_only_without_output 1 0 0 late_tick []
                           (popen w_stuck 4242)) eq_refl H5)).
  - exact (proj1 (proj2 (proj2 (idle_timeout_only_without_output 0 0 0 quiet_tick []
                                  (popen w_stuck 4242))) eq_refl)).
Defined.

(** ** Signals and their failures *)

Section Termination.

Lemma kill_tree_events (p : Z) (sig : signal) (r : option exn) :
  snd (kill_tree p sig r) = [EvKillpg p sig r].
Proof. destruct r as [[]|]; reflexivity. Qed.

Lemma kill_tree_ret (p : Z) (sig : signal) (r : option exn) :
  escapes r = false -> fst (kill_tree p sig r) = Ret tt.
Proof. destruct r as [[]|]; cbn; intros H; (reflexivity || discriminate H). Qed.

Lemma kill_tree_raise (p : Z) (sig : signal) (r : option exn) (e : exn) :
  fst (kill_tree p sig r) = Raise e -> r = Some e /\ e <> ProcessLookupError.
Proof.
  destruct r as [[]|]; cbn; intros H; try discriminate H;
    injection H as <-; (split; [reflexivity|discriminate]).
Qed.

(** Only the fallback [kill_tree] of the handler can let a failure out. *)
Lemma terminate_raise (timed_out : bool) (w : world) (st : state) (e : exn) :
  fst (fst (terminate timed_out w st)) = Raise e ->
  sigkill_fallback w = Some e /\ e <> ProcessLookupError
  /\ timed_out = true /\ fst (poll (wait0 w) st) = None.
Proof.
  unfold terminate. destruct timed_out; [|discriminate].
  destruct (poll (wait0 w) st) as [[c|] st0]; [discriminate|].
  destruct (graceful_stop w st0) as [[[[]|e0] st1] tr]; [discriminate|].
  pose proof (kill_tree_raise (pid st1) SIGKILL (sigkill_fallback w) e) as Hk.
  destruct (kill_tree (pid st1) SIGKILL (sigkill_fallback w)) as [o tr'].
  cbn. intros ->. destruct (Hk eq_refl) as [H1 H2]. repeat split; assumption.
Qed.

Lemma terminate_ret (timed_out : bool) (w : world) (st : state) :
  escapes (sigkill_fallback w) = false ->
  fst (fst (terminate timed_out w st)) = Ret tt.
Proof.
  intros Hq.
  destruct (fst (fst (terminate timed_out w st))) as [[]|e] eqn:E; [reflexivity|].
  apply terminate_raise in E as (Hf & Hne & _).
  rewrite Hf in Hq. destruct e; (discriminate Hq || congruence).
Qed.

Lemma terminate_idle (w : world) (st : state) :
  terminate false w st = (Ret tt, st, []).
Proof. reflexivity. Qed.

End Termination.

(** ** The run as a whole *)

Section Run.

Variable cmd : list string.
Variables idle_sec hard_sec : Z.
Variable w : world.

Lemma run_launch_failure (e : exn) :
  launch w = Raise e ->
  run_with_timeouts cmd idle_sec hard_sec w = Some (Raise e, []).
Proof. unfold run_with_timeouts. intros ->. reflexivity. Qed.

(** A run marked timed out returns 124 or lets the fallback's failure out. *)
Lemma run_timed_out (p : Z) (st1 : state) (tr1 : list event) :
  launch w = Ret p ->
  monitor idle_sec hard_sec (clock0 w) (ticks w) (popen w p) = Some (Ret true, st1, tr1) ->
  exists o tr2,
    run_with_timeouts cmd idle_sec hard_sec w
    = Some (o, EvSpawn cmd :: tr1 ++ [EvSelClose] ++ tr2)
    /\ (o = Ret 124
        \/ exists e, o = Raise e /\ sigkill_fallback w = Some e
                     /\ e <> ProcessLookupError /\ wait0 w = None).
Proof.
  intros Hl Hm. unfold run_with_timeouts. rewrite Hl, Hm.
  destruct (terminate true w st1) as [[[[]|e] st2] tr2] eqn:E.
  - destruct (drain (comm w) st2) as [st3 tr3].
    exists (Ret 124), (tr2 ++ tr3). split; [|now left].
    cbn. now rewrite <- !app_assoc.
  - exists (Raise e), tr2. split; [cbn; now rewrite <- ?app_assoc|]. right.
    exists e. pose proof (terminate_raise true w st1 e) as H.
    rewrite E in H. destruct (H eq_refl) as (H1 & H2 & _ & H4).
    repeat split; try assumption.
    unfold poll in H4. destruct (returncode st1); [discriminate H4|exact H4].
Qed.

Lemma poll_returncode (obs : option Z) (st : state) :
  returncode (snd (poll obs st)) = fst (poll obs st).
Proof. unfold poll. destruct (returncode st) eqn:E; cbn; [exact E|reflexivity]. Qed.




Lemma drain_signals (o : communicated) (st : state) : signals (snd (drain o st)) = [].
Proof.
  destruct o; cbn; [|reflexivity].
  destruct (Py.truthy_str _), (Py.truthy_str _); reflexivity.
Qed.

End Run.

(** ** Result computation *)

(** C1.  A run that the loop marked timed out returns 124, whatever exit
    code the child has or has not produced; the single exception is a
    fallback SIGKILL that fails with something other than
    [ProcessLookupError], whose failure leaves [run_with_timeouts] instead of
    a value. *)
Theorem timed_out_run_returns_124 :
  forall (cmd : list string) (idle_sec hard_sec : Z) (w : world)
         (p : Z) (st1 : state) (tr1 : list event),
    launch w = Ret p ->
    monitor idle_sec hard_sec (clock0 w) (ticks w) (popen w p) = Some (Ret true, st1, tr1) ->
    exists o tr,
      run_with_timeouts cmd idle_sec hard_sec w = Some (o, tr)
      /\ (o = Ret 124
          \/ exists e, o = Raise e /\ sigkill_fallback w = Some e
                       /\ e <> ProcessLookupError)
      /\ (escapes (sigkill_fallback w) = false -> o = Ret 124).
Proof.
  intros cmd idle_sec hard_sec w p st1 tr1 Hl Hm.
  destruct (run_timed_out cmd idle_sec hard_sec w p st1 tr1 Hl Hm)
    as (o & tr2 & Hrun & Ho).
  exists o, (EvSpawn cmd :: tr1 ++ [EvSelClose] ++ tr2).
  split; [exact Hrun|]. split.
  - destruct Ho as [->|(e & -> & Hf & Hne & _)]; [now left|].
    right. exists e. repeat split; assumption.
  - intros Hq. destruct Ho as [->|(e & -> & Hf & Hne & _)]; [reflexivity|].
    rewrite Hf in Hq. destruct e; (discriminate Hq || congruence).
Qed.

Lemma timed_out_run_returns_124_witness :
  launch w_stuck = Ret 4242
  /\ exists o tr,
      run_with_timeouts ["sleep"; "60"] 0 1 w_stuck = Some (o, tr)
      /\ (o = Ret 124
          \/ exists e, o = Raise e /\ sigkill_fallback w_stuck = Some e
                       /\ e <> ProcessLookupError)
      /\ (escapes (sigkill_fallback w_stuck) = false -> o = Ret 124).
Proof.
  split; [reflexivity|].
  eapply (timed_out_run_returns_124 ["sleep"; "60"] 0 1 w_stuck); reflexivity.
Defined.

(** C1, as stated, fails: the hard limit is exceeded, both [os.killpg] calls
    are refused with [PermissionError], and that exception leaves
    [run_with_timeouts] in place of 124. *)
Lemma timed_out_run_can_raise :
  option_map (fun r => fst (fst r))
    (monitor 0 1 (clock0 w_denied) (ticks w_denied) (popen w_denied 4242)) = Some (Ret true)
  /\ run_with_timeouts ["sudo"; "sleep"; "60"] 0 1 w_denied
     = Some (Raise PermissionError,
             [EvSpawn ["sudo"; "sleep"; "60"]; EvPoll None; EvPrint Stderr hard_msg;
              EvSelClose; EvPoll None;
              EvKillpg 4242 SIGTERM (Some PermissionError);
              EvKillpg 4242 SIGKILL (Some PermissionError)]).
Proof. split; reflexivity. Qed.

(** ** main *)

Section Main.

Variable a : args.
Variable argv : list string.
Variable w : world.

(** Without a command, [main] prints the usage line and returns 2. *)
Lemma main_usage :
  Py.truthy_opt_list (resolve_cmd a argv) = false ->
  main a argv w = Some (Returned 2, [EvPrint Stderr usage_msg]).
Proof.
  unfold main. destruct (resolve_cmd a argv) as [[|c cs]|]; cbn;
    intros H; (reflexivity || discriminate H).
Qed.

Lemma main_runs :
  forall c cs,
    resolve_cmd a argv = Some (c :: cs) ->
    main a argv w =
      match run_with_timeouts (c :: cs) (idle a) (hard a) w with
      | None => None
      | Some (Ret rc, tr) => Some (SysExit rc, tr)
      | Some (Raise e, tr) => Some (Uncaught e, tr)
      end.
Proof. intros c cs H. unfold main. rewrite H. reflexivity. Qed.

End Main.

(** C3.  With nothing after the [--] separator, [main] writes the usage
    line to stderr, launches nothing and returns 2; the script's last line
    calls [main()] and drops that value, so the process ends with status 0,
    not 2. *)
Theorem no_command_exit_status :
  forall w : world,
    let a := args_of 5 0 in
    let argv := ["with-timeout.py"; "--idle"; "5"; "--"] in
    main a argv w = Some (Returned 2, [EvPrint Stderr usage_msg])
    /\ spawns [EvPrint Stderr usage_msg] = []
    /\ script a argv w = Some (0, [EvPrint Stderr usage_msg]).
Proof.
  intros w a argv.
  assert (H : main a argv w = Some (Returned 2, [EvPrint Stderr usage_msg]))
    by (apply main_usage; reflexivity).
  split; [exact H|]. split; [reflexivity|].
  unfold script. rewrite H. reflexivity.
Qed.

(** C9.  When [subprocess.Popen] raises, [run_with_timeouts] raises the
    same exception having done nothing else, [main] does not catch it and
    never reaches [sys.exit(rc)], and the interpreter's exit status for it
    is neither 124 nor 0. *)
Theorem launch_failure_propagates :
  forall (a : args) (argv : list string) (w : world) (e : exn),
    Py.truthy_opt_list (resolve_cmd a argv) = true ->
    launch w = Raise e ->
    (forall cmd, run_with_timeouts cmd (idle a) (hard a) w = Some (Raise e, []))
    /\ main a argv w = Some (Uncaught e, [])
    /\ (forall rc tr, main a argv w <> Some (SysExit rc, tr))
    /\ (forall v tr, main a argv w <> Some (Returned v, tr))
    /\ exists status, script a argv w = Some (status, [])
                      /\ status <> 124 /\ status <> 0.
Proof.
  intros a argv w e Hcmd Hl.
  assert (Hrun : forall cmd, run_with_timeouts cmd (idle a) (hard a) w = Some (Raise e, []))
    by (intros cmd; apply run_launch_failure, Hl).
  assert (Hmain : main a argv w = Some (Uncaught e, [])).
  { destruct (resolve_cmd a argv) as [[|c cs]|] eqn:E; try discriminate Hcmd.
    rewrite (main_runs a argv w c cs E), Hrun. reflexivity. }
  split; [exact Hrun|]. split; [exact Hmain|].
  split; [intros rc tr; rewrite Hmain; discriminate|].
  split; [intros v tr; rewrite Hmain; discriminate|].
  exists 1. unfold script. rewrite Hmain. cbn. repeat split; discriminate.
Qed.

Lemma launch_failure_propagates_witness :
  main (args_of 5 5) ["with-timeout.py"; "--"; "./no-such-tool"] w_missing
  = Some (Uncaught FileNotFoundError, [])
  /\ script (args_of 5 5) ["with-timeout.py"; "--"; "./no-such-tool"] w_missing
     = Some (1, []).
Proof.
  pose proof (launch_failure_propagates (args_of 5 5)
                ["with-timeout.py"; "--"; "./no-such-tool"] w_missing
                FileNotFoundError eq_refl eq_refl) as (_ & Hmain & _).
  split; [exact Hmain|]. reflexivity.
Defined.

(** ** Failures while signalling *)

(** C8.  [kill_tree] swallows [ProcessLookupError]; as long as the fallback
    SIGKILL of the handler does not fail with another exception, whatever
    the earlier [os.killpg] calls raised, the run ends as it does when every
    signal is delivered: same return value, same exception if any.  Once the
    loop has ended, an exception that leaves [run_with_timeouts] is the one
    the termination protocol raised: the fallback's, and not a
    [ProcessLookupError]. *)
Theorem signal_failures_swallowed :
  forall (cmd : list string) (idle_sec hard_sec : Z) (w : world),
    (forall p sig,
        kill_tree p sig (Some ProcessLookupError)
        = (Ret tt, [EvKillpg p sig (Some ProcessLookupError)]))
    /\ (escapes (sigkill_fallback w) = false ->
        option_map fst (run_with_timeouts cmd idle_sec hard_sec w)
        = option_map fst (run_with_timeouts cmd idle_sec hard_sec (delivered w)))
    /\ (forall p timed_out st1 tr1 e tr,
           launch w = Ret p ->
           monitor idle_sec hard_sec (clock0 w) (ticks w) (popen w p)
           = Some (Ret timed_out, st1, tr1) ->
           run_with_timeouts cmd idle_sec hard_sec w = Some (Raise e, tr) ->
           fst (fst (terminate timed_out w st1)) = Raise e
           /\ sigkill_fallback w = Some e /\ e <> ProcessLookupError).
Proof.
  intros cmd idle_sec hard_sec w. split; [reflexivity|]. split.
  - intros Hq. unfold run_with_timeouts.
    change (launch (delivered w)) with (launch w).
    change (clock0 (delivered w)) with (clock0 w).
    change (ticks (delivered w)) with (ticks w).
    change (comm (delivered w)) with (comm w).
    destruct (launch w) as [p|e]; [|reflexivity].
    change (popen (delivered w) p) with (popen w p).
    destruct (monitor idle_sec hard_sec (clock0 w) (ticks w) (popen w p))
      as [[[[timed_out|e] st1] tr1]|]; [|reflexivity|reflexivity].
    destruct timed_out.
    + pose proof (terminate_ret true w st1 Hq) as H1.
      pose proof (terminate_ret true (delivered w) st1 eq_refl) as H2.
      destruct (terminate true w st1) as [[o st2] tr2].
      destruct (terminate true (delivered w) st1) as [[o' st2'] tr2'].
      cbn [fst] in H1, H2. subst o o'.
      destruct (drain (comm w) st2), (drain (comm w) st2'). reflexivity.
    + rewrite !terminate_idle. reflexivity.
  - intros p timed_out st1 tr1 e tr Hl Hm. unfold run_with_timeouts. rewrite Hl, Hm.
    pose proof (terminate_raise timed_out w st1) as Hr.
    destruct (terminate timed_out w st1) as [[[[]|e'] st2] tr2].
    + destruct (drain (comm w) st2). discriminate.
    + intros H. injection H as -> _.
      destruct (Hr e eq_refl) as (H1 & H2 & _). now repeat split.
Qed.

Lemma signal_failures_swallowed_witness :
  escapes (sigkill_fallback w_term_refused) = false
  /\ option_map fst (run_with_timeouts ["sleep"; "60"] 1 0 w_term_refused)
     = option_map fst (run_with_timeouts ["sleep"; "60"] 1 0 (delivered w_term_refused)).
Proof.
  split; [reflexivity|].
  apply (proj1 (proj2 (signal_failures_swallowed ["sleep"; "60"] 1 0 w_term_refused))).
  reflexivity.
Defined.

(** C8, as stated, fails: the child outlives the grace window, the SIGKILL
    and then the fallback SIGKILL are refused with [PermissionError], and
    that exception leaves [run_with_timeouts]. *)
Lemma signal_failure_can_escape :
  run_with_timeouts ["sudo"; "sleep"; "60"] 1 0 w_unkillable
  = Some (Raise PermissionError,
          [EvSpawn ["sudo"; "sleep"; "60"];
           EvPrint Stderr idle_msg; EvSelClose; EvPoll None;
           EvKillpg 4242 SIGTERM None]
          ++ grace_window 10
          ++ [EvPoll None;
              EvKillpg 4242 SIGKILL (Some PermissionError);
              EvKillpg 4242 SIGKILL (Some PermissionError)]).
Proof. reflexivity. Qed.

(** ** The grace window *)

Section Grace.

Lemma sleeps_app (a b : list event) : sleeps (a ++ b) = sleeps a ++ sleeps b.
Proof. apply flat_map_app. Qed.

Lemma grace_window_S (n : nat) :
  grace_window (S n) = EvPoll None :: EvSleep (2 # 10) :: grace_window n.
Proof. reflexivity. Qed.

Lemma grace_window_signals (n : nat) : signals (grace_window n) = [].
Proof. induction n as [|n IH]; [reflexivity|]. rewrite grace_window_S. exact IH. Qed.

Lemma forallb_firstn_S {A} (f : A -> bool) (n : nat) :
  forall l,
    forallb f (firstn (S n) l)
    = forallb f (firstn n l) && match skipn n l with [] => true | x :: _ => f x end.
Proof.
  induction n as [|n IH]; intros [|x l]; try reflexivity.
  - cbn. now rewrite andb_true_r.
  - change (firstn (S (S n)) (x :: l)) with (x :: firstn (S n) l).
    change (firstn (S n) (x :: l)) with (x :: firstn n l).
    change (skipn (S n) (x :: l)) with (skipn n l).
    cbn [forallb]. rewrite IH. now rewrite andb_assoc.
Qed.

Lemma poll_next_pid (obs : list (option Z)) (st : state) :
  pid (snd (fst (poll_next obs st))) = pid st.
Proof. unfold poll_next. destruct (returncode st), obs; reflexivity. Qed.

Lemma poll_next_returncode (obs : list (option Z)) (st : state) :
  returncode (snd (fst (poll_next obs st))) = fst (fst (poll_next obs st)).
Proof.
  unfold poll_next. destruct (returncode st) eqn:E; [exact E|].
  destruct obs; cbn; [exact E|reflexivity].
Qed.

Lemma poll_next_fresh (obs : list (option Z)) (st : state) :
  returncode st = None ->
  fst (fst (poll_next obs st)) = match obs with [] => None | o :: _ => o end
  /\ snd (poll_next obs st) = tl obs.
Proof. unfold poll_next. intros ->. destruct obs; now split. Qed.

(** No exit seen in [n] polls: [n] full rounds, and the child still has no code. *)
Lemma grace_alive (n : nat) :
  forall obs st,
    returncode st = None ->
    forallb is_none (firstn n obs) = true ->
    exists st',
      grace n obs st = (st', skipn n obs, grace_window n)
      /\ returncode st' = None /\ pid st' = pid st.
Proof.
  induction n as [|n IH]; intros obs st Hrc Hall.
  - exists st. now repeat split.
  - cbn [grace]. unfold poll_next. rewrite Hrc. destruct obs as [|o obs].
    + destruct (IH [] st Hrc) as (st' & Hg & Hr & Hp);
        [now destruct n|].
      rewrite Hg. exists st'. rewrite grace_window_S.
      replace (skipn n []) with (@nil (option Z)) by now destruct n.
      now repeat split.
    + cbn [firstn forallb] in Hall. apply andb_true_iff in Hall as [Ho Hall].
      destruct o as [c|]; [discriminate Ho|].
      destruct (IH obs (set_returncode None st) eq_refl Hall) as (st' & Hg & Hr & Hp).
      rewrite Hg. exists st'. rewrite grace_window_S. now repeat split.
Qed.

(** An exit seen within [n] polls: fewer than [n] sleeps and a code. *)
Lemma grace_exited (n : nat) :
  forall obs st,
    returncode st = None ->
    forallb is_none (firstn n obs) = false ->
    exists st' obs' tr c,
      grace n obs st = (st', obs', tr)
      /\ returncode st' = Some c /\ pid st' = pid st
      /\ signals tr = [] /\ (List.length (sleeps tr) < n)%nat
      /\ Forall (fun d => d = 2 # 10) (sleeps tr).
Proof.
  induction n as [|n IH]; intros obs st Hrc Hall; [discriminate Hall|].
  cbn [grace]. unfold poll_next. rewrite Hrc. destruct obs as [|o obs].
  - now destruct n.
  - destruct o as [c|].
    + exists (set_returncode (Some c) st), obs, [EvPoll (Some c)], c.
      repeat split; cbn; (lia || constructor).
    + cbn [firstn forallb is_none andb] in Hall.
      destruct (IH obs (set_returncode None st) eq_refl Hall)
        as (st' & obs' & tr & c & Hg & Hr & Hp & Hs & Hl & Hf).
      rewrite Hg. exists st', obs', (EvPoll None :: EvSleep (2 # 10) :: tr), c.
      change (sleeps (EvPoll None :: EvSleep (2 # 10) :: tr))
        with ((2 # 10) :: sleeps tr).
      repeat split; try assumption.
      * cbn [List.length]. lia.
      * constructor; [reflexivity|exact Hf].
Qed.

End Grace.

(** ** The state the loop hands over *)

Section LoopState.

Variables idle_sec hard_sec : Z.
Variable start : Q.

Lemma readline_keeps (s : stream) (st : state) :
  pid (snd (readline s st)) = pid st
  /\ returncode (snd (readline s st)) = returncode st.
Proof.
  unfold readline. destruct (rest_of s st) as [|[l|e] rs]; [now split| |];
    destruct s; now split.
Qed.

Lemma relay_ready_keeps (evs : list (stream * Q)) :
  forall st,
    pid (snd (fst (relay_ready evs st))) = pid st
    /\ returncode (snd (fst (relay_ready evs st))) = returncode st.
Proof.
  induction evs as [|[key t] evs IH]; intros st; cbn [relay_ready]; [now split|].
  pose proof (readline_keeps key st) as [Hp Hr].
  destruct (readline key st) as [[ln|e] st1]; cbn [fst snd] in *; [|now split].
  destruct (Py.truthy_str ln).
  - destruct (IH (set_last t st1)) as [IH1 IH2].
    destruct (relay_ready evs (set_last t st1)) as [[o st2] tr]. cbn [fst snd] in *.
    split; [rewrite IH1|rewrite IH2]; assumption.
  - destruct (IH st1) as [IH1 IH2]. split; congruence.
Qed.

Lemma poll_pid (obs : option Z) (st : state) : pid (snd (poll obs st)) = pid st.
Proof. unfold poll. destruct (returncode st); reflexivity. Qed.

Lemma poll_break_keeps (obs : option Z) (st : state) :
  match fst (poll_break obs st) with
  | Continue st' => pid st' = pid st /\ returncode st' = None
  | Break b st' => pid st' = pid st /\ b = false
  | Crash _ _ => False
  end.
Proof.
  unfold poll_break. pose proof (poll_pid obs st) as Hp.
  pose proof (poll_returncode obs st) as Hr.
  destruct (poll obs st) as [[c|] st']; cbn [fst snd] in *; now split.
Qed.

Lemma iteration_keeps (tk : tick) (st : state) :
  match fst (iteration idle_sec hard_sec start tk st) with
  | Continue st' => pid st' = pid st /\ returncode st' = None
  | Break true st' => st' = st
  | Break false st' => pid st' = pid st
  | Crash _ st' => pid st' = pid st
  end.
Proof.
  unfold iteration.
  destruct (hard_expired hard_sec start (now_top tk)); [reflexivity|].
  destruct (ready tk) as [|ev evs].
  - destruct (idle_expired idle_sec (last st) (now_idle tk)); [reflexivity|].
    pose proof (poll_break_keeps (waited tk) st) as H.
    destruct (fst (poll_break (waited tk) st)) as [st'|[] st'|e st'];
      intuition congruence.
  - destruct (relay_ready_keeps (ev :: evs) st) as [Hp _].
    destruct (relay_ready (ev :: evs) st) as [[[[]|e] st1] tr]; cbn [fst snd] in Hp;
      [|exact Hp].
    pose proof (poll_break_keeps (waited tk) st1) as H.
    destruct (poll_break (waited tk) st1) as [fl tr']. cbn [fst] in *.
    destruct fl as [st'|[] st'|e st']; intuition congruence.
Qed.

(** The loop keeps the pid; on a timeout the child has no code yet. *)
Lemma monitor_keeps (tks : list tick) :
  forall st timed_out st' tr,
    monitor idle_sec hard_sec start tks st = Some (Ret timed_out, st', tr) ->
    pid st' = pid st
    /\ (timed_out = true -> returncode st = None -> returncode st' = None).
Proof.
  induction tks as [|tk tks IH]; intros st timed_out st' tr H; [discriminate|].
  cbn [monitor] in H. pose proof (iteration_keeps tk st) as Hk.
  destruct (iteration idle_sec hard_sec start tk st) as [[st1|b st1|e st1] tr1];
    cbn [fst] in Hk.
  - destruct (monitor idle_sec hard_sec start tks st1) as [[[b2 st2] tr2]|] eqn:E;
      [|discriminate].
    injection H as -> -> <-. destruct (IH _ _ _ _ E) as [Hp Hr].
    destruct Hk as [Hk1 Hk2]. split; [congruence|]. intros Ht _. now apply Hr.
  - injection H as -> -> ->. destruct timed_out.
    + subst st'. now split.
    + split; [exact Hk|discriminate].
  - discriminate H.
Qed.

End LoopState.

(** ** The termination protocol *)

Section Protocol.

Variable w : world.

Lemma sleeps_grace_window (n : nat) : sleeps (grace_window n) = repeat (2 # 10) n.
Proof.
  induction n as [|n IH]; [reflexivity|].
  rewrite grace_window_S. cbn [repeat]. rewrite <- IH. reflexivity.
Qed.

Lemma alive_split (obs : list (option Z)) :
  alive_after_grace obs
  = forallb is_none (firstn 10 obs)
    && match skipn 10 obs with [] => true | o :: _ => is_none o end.
Proof. unfold alive_after_grace. apply forallb_firstn_S. Qed.

(** The child outlives the window: ten rounds, a last poll, then SIGKILL. *)
Lemma graceful_stop_alive (st : state) :
  returncode st = None -> sigterm w = None ->
  alive_after_grace (grace_obs w) = true ->
  exists st2,
    graceful_stop w st
    = (fst (kill_tree (pid st) SIGKILL (sigkill w)), st2,
       EvKillpg (pid st) SIGTERM None :: grace_window 10
       ++ [EvPoll None; EvKillpg (pid st) SIGKILL (sigkill w)])
    /\ pid st2 = pid st.
Proof.
  intros Hrc Hterm Halive. rewrite alive_split in Halive.
  apply andb_true_iff in Halive as [H10 H11].
  unfold graceful_stop. rewrite Hterm.
  destruct (grace_alive 10 (grace_obs w) st Hrc H10) as (st1 & Hg & Hr1 & Hp1).
  rewrite Hg. unfold poll_next. rewrite Hr1.
  assert (Hshape : forall st2, pid st2 = pid st ->
             (let (o, tr2) := kill_tree (pid st2) SIGKILL (sigkill w) in
              (o, st2,
               (EvKillpg (pid st) SIGTERM None :: grace_window 10 ++ [EvPoll None])
               ++ tr2))
             = (fst (kill_tree (pid st) SIGKILL (sigkill w)), st2,
                EvKillpg (pid st) SIGTERM None :: grace_window 10
                ++ [EvPoll None; EvKillpg (pid st) SIGKILL (sigkill w)])).
  { intros st2 Hp. rewrite Hp.
    pose proof (kill_tree_events (pid st) SIGKILL (sigkill w)) as He.
    destruct (kill_tree (pid st) SIGKILL (sigkill w)) as [o tr2].
    cbn [fst snd] in *. subst tr2. cbn [app].
    now rewrite <- app_assoc. }
  destruct (skipn 10 (grace_obs w)) as [|[c|] rest]; [|discriminate H11|].
  - exists st1. split; [apply Hshape, Hp1|exact Hp1].
  - exists (set_returncode None st1). split; [apply Hshape, Hp1|exact Hp1].
Qed.

(** The child is seen to exit within the window: no further signal. *)
Lemma graceful_stop_exited (st : state) :
  returncode st = None -> sigterm w = None ->
  alive_after_grace (grace_obs w) = false ->
  exists st2 tr,
    graceful_stop w st = (Ret tt, st2, EvKillpg (pid st) SIGTERM None :: tr)
    /\ signals tr = [] /\ (List.length (sleeps tr) <= 10)%nat
    /\ Forall (fun d => d = 2 # 10) (sleeps tr).
Proof.
  intros Hrc Hterm Hgone. rewrite alive_split in Hgone.
  unfold graceful_stop. rewrite Hterm.
  destruct (forallb is_none (firstn 10 (grace_obs w))) eqn:H10.
  - cbn [andb] in Hgone.
    destruct (grace_alive 10 (grace_obs w) st Hrc H10) as (st1 & Hg & Hr1 & Hp1).
    rewrite Hg. unfold poll_next. rewrite Hr1.
    destruct (skipn 10 (grace_obs w)) as [|[c|] rest]; try discriminate Hgone.
    exists (set_returncode (Some c) st1), (grace_window 10 ++ [EvPoll (Some c)]).
    split; [reflexivity|]. rewrite signals_app, sleeps_app, grace_window_signals.
    rewrite sleeps_grace_window. split; [reflexivity|]. split.
    + cbn. lia.
    + cbn. repeat constructor.
  - destruct (grace_exited 10 (grace_obs w) st Hrc H10)
      as (st1 & obs1 & tr1 & c & Hg & Hr1 & Hp1 & Hs & Hl & Hf).
    rewrite Hg. unfold poll_next. rewrite Hr1.
    exists st1, (tr1 ++ [EvPoll (Some c)]). split; [reflexivity|].
    rewrite signals_app, sleeps_app, Hs.
    change (sleeps [EvPoll (Some c)]) with (@nil Q). rewrite !app_nil_r.
    split; [reflexivity|]. split; [apply Nat.lt_le_incl, Hl|exact Hf].
Qed.

End Protocol.

(** C7.  After the loop: no signal is sent when the loop ended without a
    timeout or the child has already exited.  Otherwise the first thing
    sent is SIGTERM, to the child's process group.  When it is delivered,
    the child is polled with 200 ms sleeps, ten at most; SIGKILL goes to the
    group exactly when the child is still alive after all ten rounds and a
    last poll, and no further signal is sent when the child is seen to exit
    earlier.  When sending SIGTERM itself fails, SIGKILL is sent at once,
    with no grace window. *)
Theorem termination_protocol :
  forall (idle_sec hard_sec : Z) (w : world) (p : Z)
         (timed_out : bool) (st : state) (tr1 : list event),
    launch w = Ret p ->
    monitor idle_sec hard_sec (clock0 w) (ticks w) (popen w p)
    = Some (Ret timed_out, st, tr1) ->
    let tr := snd (terminate timed_out w st) in
    (timed_out = false \/ wait0 w <> None -> signals tr = [])
    /\ (timed_out = true -> wait0 w = None ->
        (exists tr', tr = EvPoll None :: EvKillpg p SIGTERM (sigterm w) :: tr')
        /\ (sigterm w = None -> alive_after_grace (grace_obs w) = true ->
            tr = [EvPoll None; EvKillpg p SIGTERM None] ++ grace_window 10
                 ++ [EvPoll None; EvKillpg p SIGKILL (sigkill w)]
                 ++ (if escapes (sigkill w)
                     then [EvKillpg p SIGKILL (sigkill_fallback w)] else []))
        /\ (sigterm w = None -> alive_after_grace (grace_obs w) = false ->
            signals tr = [(p, SIGTERM)]
            /\ (List.length (sleeps tr) <= 10)%nat
            /\ Forall (fun d => d = 2 # 10) (sleeps tr))
        /\ (forall e, sigterm w = Some e ->
            tr = [EvPoll None; EvKillpg p SIGTERM (Some e);
                  EvKillpg p SIGKILL (sigkill_fallback w)])).
Proof.
  intros idle_sec hard_sec w p timed_out st tr1 Hl Hm tr.
  destruct (monitor_keeps _ _ _ _ _ _ _ _ Hm) as [Hpid Hrc].
  change (pid (popen w p)) with p in Hpid. subst tr. split.
  - intros [->|Hw]; [reflexivity|]. unfold terminate.
    destruct timed_out; [|reflexivity].
    rewrite (surjective_pairing (poll (wait0 w) st)).
    destruct (fst (poll (wait0 w) st)) as [c|] eqn:E; [reflexivity|].
    exfalso. apply Hw. unfold poll in E.
    rewrite (Hrc eq_refl eq_refl) in E. exact E.
  - intros -> Hw. specialize (Hrc eq_refl eq_refl). subst p.
    assert (Hterm : terminate true w st =
              match graceful_stop w (set_returncode None st) with
              | (Ret _, st1, tr) => (Ret tt, st1, EvPoll None :: tr)
              | (Raise _, st1, tr) =>
                  let (o, tr') := kill_tree (pid st1) SIGKILL (sigkill_fallback w) in
                  (o, st1, EvPoll None :: tr ++ tr')
              end).
    { unfold terminate, poll. rewrite Hrc, Hw. reflexivity. }
    assert (Hr0 : returncode (set_returncode None st) = None) by reflexivity.
    change (pid st) with (pid (set_returncode None st)).
    rewrite Hterm. clear Hterm. generalize dependent (set_returncode None st).
    clear Hl Hm Hrc Hw. clear st. intros st Hr0.
    split; [|split; [|split]].
    + unfold graceful_stop. destruct (sigterm w) as [e|].
      * destruct (kill_tree (pid st) SIGKILL (sigkill_fallback w)).
        eexists. reflexivity.
      * destruct (grace 10 (grace_obs w) st) as [[s1 o1] t1].
        destruct (poll_next o1 s1) as [[[c|] s2] o2]; [eexists; reflexivity|].
        destruct (kill_tree (pid s2) SIGKILL (sigkill w)) as [[[]|e] t2];
          [eexists; reflexivity|].
        destruct (kill_tree (pid s2) SIGKILL (sigkill_fallback w)).
        eexists. reflexivity.
    + intros Hs Ha.
      destruct (graceful_stop_alive w _ Hr0 Hs Ha) as (st2 & -> & Hp2).
      pose proof (kill_tree_events (pid st) SIGKILL (sigkill_fallback w)) as He.
      destruct (sigkill w) as [[]|]; cbn [kill_tree fst escapes];
        try (cbn [snd app]; now rewrite <- ?app_assoc);
        rewrite Hp2;
        destruct (kill_tree (pid st) SIGKILL (sigkill_fallback w)) as [o t];
        cbn [snd] in He; subst t; cbn [snd app]; now rewrite <- ?app_assoc.
    + intros Hs Ha.
      destruct (graceful_stop_exited w _ Hr0 Hs Ha) as (st2 & t & -> & Hsig & Hn & Hf).
      cbn [snd]. split; [|split; assumption].
      change (signals (EvPoll None :: EvKillpg (pid st) SIGTERM None :: t))
        with ((pid st, SIGTERM) :: signals t).
      now rewrite Hsig.
    + intros e He. unfold graceful_stop. rewrite He.
      pose proof (kill_tree_events (pid st) SIGKILL (sigkill_fallback w)) as Hk.
      destruct (kill_tree (pid st) SIGKILL (sigkill_fallback w)) as [o t].
      cbn [snd] in *. now subst t.
Qed.

Lemma termination_protocol_witness :
  launch w_stubborn = Ret 4242
  /\ snd (terminate true w_stubborn (popen w_stubborn 4242))
     = [EvPoll None; EvKillpg 4242 SIGTERM None] ++ grace_window 10
       ++ [EvPoll None; EvKillpg 4242 SIGKILL None].
Proof.
  split; [reflexivity|].
  pose proof (termination_protocol 0 1 w_stubborn 4242 true
                (popen w_stubborn 4242) [EvPoll None; EvPrint Stderr hard_msg]
                eq_refl eq_refl) as [_ H].
  destruct (H eq_refl eq_refl) as (_ & Halive & _).
  exact (Halive eq_refl eq_refl).
Defined.

(** C7, as stated, fails: sending SIGTERM is refused, and SIGKILL goes to
    the group at once, with no poll and no sleep in between. *)
Lemma sigkill_without_grace_window :
  option_map (fun r => fst (fst r))
    (monitor 0 1 (clock0 w_term_refused) (ticks w_term_refused)
       (popen w_term_refused 4242)) = Some (Ret true)
  /\ snd (terminate true w_term_refused (popen w_term_refused 4242))
     = [EvPoll None;
        EvKillpg 4242 SIGTERM (Some PermissionError);
        EvKillpg 4242 SIGKILL None]
  /\ sleeps (snd (terminate true w_term_refused (popen w_term_refused 4242))) = [].
Proof. repeat split. Qed.

(** ** Relaying *)

Section Relay.

Lemma append_empty_r (x : string) : (x ++ "")%string = x.
Proof. induction x as [|c x IH]; cbn; [reflexivity|now rewrite IH]. Qed.

Lemma append_assoc (x y z : string) : ((x ++ y) ++ z = x ++ (y ++ z))%string.
Proof. induction x as [|c x IH]; cbn; [reflexivity|now rewrite IH]. Qed.

Lemma concat_lines_app (a b : list string) :
  concat_lines (a ++ b) = (concat_lines a ++ concat_lines b)%string.
Proof.
  induction a as [|x a IH]; cbn; [reflexivity|].
  fold (concat_lines (a ++ b)). fold (concat_lines a).
  now rewrite IH, append_assoc.
Qed.

Lemma falsy_empty (x : string) : Py.truthy_str x = false -> x = "".
Proof. destruct x; [reflexivity|discriminate]. Qed.

Lemma control_relayed (s : stream) (tr : list event) :
  forallb control tr = true -> relayed s tr = [] /\ Forall origin_kept tr.
Proof.
  induction tr as [|e tr IH]; cbn [forallb]; [now split|].
  intros H. apply andb_true_iff in H as [He Htr]. destruct (IH Htr) as [IH1 IH2].
  split.
  - change (e :: tr) with ([e] ++ tr). rewrite relayed_app, IH1.
    destruct e; (reflexivity || discriminate He).
  - constructor; [|exact IH2]. destruct e; (exact I || discriminate He).
Qed.

Lemma conserves_refl (s : stream) (st st' : state) (tr : list event) :
  forallb control tr = true -> rest_of s st' = rest_of s st -> conserves s st tr st'.
Proof.
  intros Hc Hr. unfold conserves.
  destruct (control_relayed s tr Hc) as [-> _]. now rewrite Hr.
Qed.

Lemma conserves_trans (s : stream) (st st1 st2 : state) (tr1 tr2 : list event) :
  conserves s st tr1 st1 -> conserves s st1 tr2 st2 ->
  conserves s st (tr1 ++ tr2) st2.
Proof.
  unfold conserves. intros H1 H2.
  rewrite relayed_app, concat_lines_app, append_assoc, H2. exact H1.
Qed.

Lemma set_returncode_rest (s : stream) (rc : option Z) (st : state) :
  rest_of s (set_returncode rc st) = rest_of s st.
Proof. destruct s; reflexivity. Qed.

Lemma set_last_rest (s : stream) (t : Q) (st : state) :
  rest_of s (set_last t st) = rest_of s st.
Proof. destruct s; reflexivity. Qed.

Lemma relay_ready_conserves (s : stream) (evs : list (stream * Q)) :
  forall st,
    conserves s st (snd (relay_ready evs st)) (snd (fst (relay_ready evs st)))
    /\ Forall origin_kept (snd (relay_ready evs st)).
Proof.
  induction evs as [|[key t] evs IH]; intros st; cbn [relay_ready].
  - split; [|constructor]. unfold conserves. reflexivity.
  - unfold readline. destruct (rest_of key st) as [|[l|e] ls] eqn:E.
    + cbn [Py.truthy_str]. apply IH.
    + destruct (Py.truthy_str l) eqn:Hl.
      * destruct (IH (set_last t (set_rest key ls st))) as [IH1 IH2].
        destruct (relay_ready evs (set_last t (set_rest key ls st))) as [[o st2] tr].
        cbn [fst snd] in *. split.
        -- unfold conserves in *. rewrite set_last_rest in IH1.
           change (relayed s (EvRelay key (sink key) l :: EvFlush (sink key) :: tr))
             with ((if stream_eqb (sink key) s then [l] else []) ++ relayed s tr).
           unfold concat_lines in *.
           destruct key, s;
             cbn [sink stream_eqb app rest_of set_rest out_rest err_rest] in *;
             try exact IH1;
             rewrite E; cbn [texts flat_map app fold_right]; fold (texts ls);
             now rewrite append_assoc, IH1.
        -- constructor; [now destruct key|]. constructor; [exact I|exact IH2].
      * apply falsy_empty in Hl. subst l.
        destruct (IH (set_rest key ls st)) as [IH1 IH2]. split; [|exact IH2].
        unfold conserves in *. rewrite IH1.
        destruct key, s; cbn [rest_of set_rest] in *; rewrite ?E; reflexivity.
    + cbn [fst snd]. split; [|constructor]. unfold conserves.
      destruct key, s; cbn [rest_of set_rest] in *; rewrite ?E; reflexivity.
Qed.

End Relay.

Section RelayRun.

Variable s : stream.

Lemma forallb_control_app (a b : list event) :
  forallb control a = true -> forallb control b = true ->
  forallb control (a ++ b) = true.
Proof. intros Ha Hb. rewrite forallb_app, Ha, Hb. reflexivity. Qed.

Lemma poll_rest (obs : option Z) (st : state) :
  rest_of s (snd (poll obs st)) = rest_of s st.
Proof. unfold poll. destruct (returncode st); [reflexivity|apply set_returncode_rest]. Qed.

Lemma poll_next_rest (obs : list (option Z)) (st : state) :
  rest_of s (snd (fst (poll_next obs st))) = rest_of s st.
Proof.
  unfold poll_next. destruct (returncode st); [reflexivity|].
  destruct obs; [reflexivity|apply set_returncode_rest].
Qed.

Lemma poll_break_conserves (obs : option Z) (st : state) :
  conserves s st (snd (poll_break obs st)) (flow_state (fst (poll_break obs st)))
  /\ Forall origin_kept (snd (poll_break obs st)).
Proof.
  unfold poll_break. pose proof (poll_rest obs st) as Hr.
  destruct (poll obs st) as [[c|] st']; cbn [fst snd flow_state] in *;
    (split; [apply conserves_refl; [reflexivity|exact Hr]|repeat constructor]).
Qed.

Lemma iteration_conserves (idle_sec hard_sec : Z) (start : Q) (tk : tick) (st : state) :
  conserves s st (snd (iteration idle_sec hard_sec start tk st))
    (flow_state (fst (iteration idle_sec hard_sec start tk st)))
  /\ Forall origin_kept (snd (iteration idle_sec hard_sec start tk st)).
Proof.
  unfold iteration.
  destruct (hard_expired hard_sec start (now_top tk)).
  { split; [now apply conserves_refl|repeat constructor]. }
  destruct (ready tk) as [|ev evs].
  - destruct (idle_expired idle_sec (last st) (now_idle tk)).
    + split; [now apply conserves_refl|repeat constructor].
    + apply poll_break_conserves.
  - destruct (relay_ready_conserves s (ev :: evs) st) as [H1 H2].
    destruct (relay_ready (ev :: evs) st) as [[[[]|e] st1] tr];
      cbn [fst snd flow_state] in *; [|now split].
    destruct (poll_break_conserves (waited tk) st1) as [H3 H4].
    destruct (poll_break (waited tk) st1) as [fl tr']. cbn [fst snd] in *.
    split; [eapply conserves_trans; eassumption|].
    apply Forall_app. now split.
Qed.

Lemma monitor_conserves (idle_sec hard_sec : Z) (start : Q) (tks : list tick) :
  forall st v st' tr,
    monitor idle_sec hard_sec start tks st = Some (v, st', tr) ->
    conserves s st tr st' /\ Forall origin_kept tr.
Proof.
  induction tks as [|tk tks IH]; intros st v st' tr H; [discriminate|].
  cbn [monitor] in H.
  destruct (iteration_conserves idle_sec hard_sec start tk st) as [H1 H2].
  destruct (iteration idle_sec hard_sec start tk st) as [[st1|b st1|e st1] tr1];
    cbn [fst snd flow_state] in H1, H2.
  - destruct (monitor idle_sec hard_sec start tks st1) as [[[b2 st2] tr2]|] eqn:E;
      [|discriminate].
    injection H as -> -> <-. destruct (IH _ _ _ _ E) as [H3 H4].
    split; [eapply conserves_trans; eassumption|].
    apply Forall_app. now split.
  - injection H as <- -> ->. now split.
  - injection H as <- -> ->. now split.
Qed.

Lemma grace_control (n : nat) :
  forall obs st,
    forallb control (snd (grace n obs st)) = true
    /\ rest_of s (fst (fst (grace n obs st))) = rest_of s st.
Proof.
  induction n as [|n IH]; intros obs st; cbn [grace]; [now split|].
  pose proof (poll_next_rest obs st) as Hr.
  destruct (poll_next obs st) as [[[c|] st1] obs1]; cbn [fst snd] in *;
    [now split|].
  destruct (IH obs1 st1) as [H1 H2].
  destruct (grace n obs1 st1) as [[st2 obs2] tr]. cbn [fst snd] in *.
  split; [exact H1|congruence].
Qed.

Lemma kill_tree_control (p : Z) (sig : signal) (r : option exn) :
  forallb control (snd (kill_tree p sig r)) = true.
Proof. rewrite kill_tree_events. reflexivity. Qed.

Lemma graceful_stop_control (w : world) (st : state) :
  forallb control (snd (graceful_stop w st)) = true
  /\ rest_of s (snd (fst (graceful_stop w st))) = rest_of s st.
Proof.
  unfold graceful_stop. destruct (sigterm w); [now split|].
  destruct (grace_control 10 (grace_obs w) st) as [H1 H2].
  destruct (grace 10 (grace_obs w) st) as [[st1 obs1] tr1]. cbn [fst snd] in *.
  pose proof (poll_next_rest obs1 st1) as Hr.
  destruct (poll_next obs1 st1) as [[r st2] obs2]. cbn [fst snd] in Hr.
  assert (Hc : forallb control (EvKillpg (pid st) SIGTERM None :: tr1 ++ [EvPoll r])
               = true).
  { cbn [forallb control andb]. now apply forallb_control_app. }
  destruct r as [c|]; cbn [fst snd]; [split; [exact Hc|congruence]|].
  pose proof (kill_tree_control (pid st2) SIGKILL (sigkill w)) as Hk.
  destruct (kill_tree (pid st2) SIGKILL (sigkill w)) as [o tr2]. cbn [fst snd] in *.
  split; [|congruence].
  change (forallb control
            ((EvKillpg (pid st) SIGTERM None :: tr1 ++ [EvPoll None]) ++ tr2) = true).
  now apply forallb_control_app.
Qed.

Lemma terminate_control (timed_out : bool) (w : world) (st : state) :
  forallb control (snd (terminate timed_out w st)) = true
  /\ rest_of s (snd (fst (terminate timed_out w st))) = rest_of s st.
Proof.
  unfold terminate. destruct timed_out; [|now split].
  pose proof (poll_rest (wait0 w) st) as Hr.
  destruct (poll (wait0 w) st) as [[c|] st0]; cbn [fst snd] in *; [now split|].
  destruct (graceful_stop_control w st0) as [H1 H2].
  destruct (graceful_stop w st0) as [[[[]|e] st1] tr]; cbn [fst snd] in *.
  - split; [exact H1|congruence].
  - pose proof (kill_tree_control (pid st1) SIGKILL (sigkill_fallback w)) as Hk.
    destruct (kill_tree (pid st1) SIGKILL (sigkill_fallback w)) as [o tr'].
    cbn [fst snd] in *. split; [|congruence].
    cbn [forallb control andb]. now apply forallb_control_app.
Qed.

Lemma terminate_conserves (timed_out : bool) (w : world) (st : state) :
  conserves s st (snd (terminate timed_out w st)) (snd (fst (terminate timed_out w st)))
  /\ Forall origin_kept (snd (terminate timed_out w st)).
Proof.
  destruct (terminate_control timed_out w st) as [H1 H2].
  split; [now apply conserves_refl|]. now apply (control_relayed s).
Qed.

(** The drain writes on [s] the text [communicate] returned for [s], if any. *)
Lemma drain_relays (c : communicated) (st : state) :
  Forall origin_kept (snd (drain c st))
  /\ (relayed s (snd (drain c st)) = []
      \/ exists out err code,
          c = CommOk out err code
          /\ relayed s (snd (drain c st)) = [drained_text s out err]).
Proof.
  destruct c as [out err code|code]; cbn [drain fst snd].
  - split.
    + destruct (Py.truthy_str out), (Py.truthy_str err); repeat constructor.
    + destruct (Py.truthy_str out) eqn:Eo, (Py.truthy_str err) eqn:Ee, s; cbn;
        try (now left); right; exists out, err, code; now split.
  - split; [constructor|now left].
Qed.

End RelayRun.

Section RelayTheorem.

Variable cmd : list string.
Variables idle_sec hard_sec : Z.
Variable w : world.

Lemma conserves_cons (s : stream) (e : event) (st st' : state) (tr : list event) :
  control e = true -> conserves s st tr st' -> conserves s st (e :: tr) st'.
Proof.
  intros He H. change (e :: tr) with ([e] ++ tr).
  apply conserves_trans with (st1 := st); [|exact H].
  apply conserves_refl; [|reflexivity]. cbn. now rewrite He.
Qed.

(** The whole trace of a run, seen from the child's stream [s]: first what
    the loop relayed of the successive reads of [s], then what the drain
    wrote of the text [communicate] returned for [s]. *)
Lemma run_relays (s : stream) (o : outcome Z) (tr : list event) :
  run_with_timeouts cmd idle_sec hard_sec w = Some (o, tr) ->
  Forall origin_kept tr
  /\ exists in_loop drained to_come,
      relayed s tr = in_loop ++ drained
      /\ (concat_lines in_loop ++ to_come)%string = concat_lines (texts (reads_of s w))
      /\ (drained = []
          \/ exists out err code,
              comm w = CommOk out err code /\ drained = [drained_text s out err]).
Proof.
  unfold run_with_timeouts. destruct (launch w) as [p|e].
  2:{ intros H. injection H as <- <-. split; [constructor|].
      exists [], [], (concat_lines (texts (reads_of s w))).
      split; [reflexivity|]. split; [reflexivity|now left]. }
  destruct (monitor idle_sec hard_sec (clock0 w) (ticks w) (popen w p))
    as [[[v st1] tr1]|] eqn:Hm; [|discriminate].
  destruct (monitor_conserves s _ _ _ _ _ _ _ _ Hm) as [C1 O1].
  assert (Cloop : conserves s (popen w p) (EvSpawn cmd :: tr1 ++ [EvSelClose]) st1).
  { apply conserves_cons; [reflexivity|].
    eapply conserves_trans; [exact C1|]. now apply conserves_refl. }
  assert (Oloop : Forall origin_kept (EvSpawn cmd :: tr1 ++ [EvSelClose])).
  { constructor; [exact I|]. apply Forall_app. split; [exact O1|repeat constructor]. }
  assert (Hstart : rest_of s (popen w p) = reads_of s w) by now destruct s.
  destruct v as [timed_out|e].
  2:{ intros H. injection H as <- <-. split; [exact Oloop|].
      exists (relayed s (EvSpawn cmd :: tr1 ++ [EvSelClose])), [],
        (concat_lines (texts (rest_of s st1))).
      rewrite app_nil_r, <- Hstart. split; [reflexivity|]. split; [exact Cloop|now left]. }
  destruct (terminate_conserves s timed_out w st1) as [C2 O2].
  destruct (terminate timed_out w st1) as [[[[]|e] st2] tr2]; cbn [fst snd] in C2, O2.
  - destruct (drain_relays s (comm w) st2) as [O3 D3].
    destruct (drain (comm w) st2) as [st3 tr3]. cbn [fst snd] in O3, D3.
    intros H. injection H as <- <-. split.
    + change (Forall origin_kept ((EvSpawn cmd :: tr1 ++ [EvSelClose]) ++ tr2 ++ tr3)).
      apply Forall_app. split; [exact Oloop|]. apply Forall_app. now split.
    + exists (relayed s ((EvSpawn cmd :: tr1 ++ [EvSelClose]) ++ tr2)), (relayed s tr3),
        (concat_lines (texts (rest_of s st2))).
      split; [rewrite <- relayed_app; f_equal; cbn [app]; now rewrite <- !app_assoc|].
      rewrite <- Hstart. split; [exact (conserves_trans _ _ _ _ _ _ Cloop C2)|].
      destruct D3 as [->|(out & err & code & Hc & ->)]; [now left|].
      right. now exists out, err, code.
  - intros H. injection H as <- <-. split.
    + change (Forall origin_kept ((EvSpawn cmd :: tr1 ++ [EvSelClose]) ++ tr2)).
      apply Forall_app. now split.
    + exists (relayed s ((EvSpawn cmd :: tr1 ++ [EvSelClose]) ++ tr2)), [],
        (concat_lines (texts (rest_of s st2))).
      rewrite app_nil_r, <- Hstart. split; [reflexivity|].
      split; [exact (conserves_trans _ _ _ _ _ _ Cloop C2)|now left].
Qed.

End RelayTheorem.

(** C6.  In every run, each text read from one of the child's streams is
    written to the supervisor's stream of the same name, in the loop and in
    the drain alike.  On each stream, what the supervisor has written of the
    child's output is, in this order: the texts that the successive
    [readline()] on that same stream returned, from the first one on, as
    they were returned and in the order they were returned, and then, at
    most once, the text that [communicate()] returned for that same
    stream. *)
Theorem stream_origin_preserved :
  forall (cmd : list string) (idle_sec hard_sec : Z) (w : world)
         (o : outcome Z) (tr : list event),
    run_with_timeouts cmd idle_sec hard_sec w = Some (o, tr) ->
    (forall src dst text, In (EvRelay src dst text) tr -> dst = src)
    /\ (forall s, exists in_loop drained to_come,
           relayed s tr = in_loop ++ drained
           /\ (concat_lines in_loop ++ to_come)%string
              = concat_lines (texts (reads_of s w))
           /\ (drained = []
               \/ exists out err code,
                   comm w = CommOk out err code
                   /\ drained = [drained_text s out err])).
Proof.
  intros cmd idle_sec hard_sec w o tr H. split.
  - destruct (run_relays cmd idle_sec hard_sec w Stdout o tr H) as [Ho _].
    intros src dst text Hin. rewrite Forall_forall in Ho. exact (Ho _ Hin).
  - intros s. exact (proj2 (run_relays cmd idle_sec hard_sec w s o tr H)).
Qed.

Lemma stream_origin_preserved_witness :
  (exists o tr, run_with_timeouts ["sh"; "hello.sh"] 5 5 w_hello = Some (o, tr))
  /\ forall src dst text,
      In (EvRelay src dst text)
         [EvSpawn ["sh"; "hello.sh"];
          EvRelay Stdout Stdout (text_line "a"); EvFlush Stdout;
          EvRelay Stderr Stderr (text_line "e"); EvFlush Stderr;
          EvPoll None; EvPoll (Some 3); EvSelClose] ->
      dst = src.
Proof.
  split; [eexists; eexists; reflexivity|].
  exact (proj1 (stream_origin_preserved ["sh"; "hello.sh"] 5 5 w_hello
                  (Ret 3) _ eq_refl)).
Defined.

(** ** Negative bounds *)

(** C10.  A negative [hard_sec] is truthy and lies below every elapsed
    time of a clock that was not set back: the first pass of the loop marks
    the run timed out before anything is read or relayed by the loop, and
    the run returns 124, also when the child has already exited (the one
    way out being the failing fallback SIGKILL of C1); what the child has
    written is left to the final drain, which may relay it before the
    return.  Likewise a negative [idle_sec] fires in the first pass in
    which the wait finds nothing ready. *)
Theorem negative_bounds_fire_at_once :
  forall (idle_sec hard_sec : Z),
    (forall (cmd : list string) (w : world) (p : Z) (tk : tick) (tks : list tick),
        launch w = Ret p -> ticks w = tk :: tks ->
        hard_sec < 0 -> (clock0 w <= now_top tk)%Q ->
        monitor idle_sec hard_sec (clock0 w) (ticks w) (popen w p)
        = Some (Ret true, popen w p, [EvPrint Stderr hard_msg])
        /\ exists o tr2,
            run_with_timeouts cmd idle_sec hard_sec w
            = Some (o, EvSpawn cmd :: EvPrint Stderr hard_msg :: EvSelClose :: tr2)
            /\ (o = Ret 124
                \/ exists e, o = Raise e /\ sigkill_fallback w = Some e
                             /\ e <> ProcessLookupError /\ wait0 w = None)
            /\ (forall c, wait0 w = Some c -> o = Ret 124))
    /\ (forall (start : Q) (tk : tick) (tks : list tick) (st : state),
           idle_sec < 0 ->
           hard_expired hard_sec start (now_top tk) = false -> ready tk = [] ->
           (last st <= now_idle tk)%Q ->
           monitor idle_sec hard_sec start (tk :: tks) st
           = Some (Ret true, st, [EvPrint Stderr idle_msg])).
Proof.
  intros idle_sec hard_sec. split.
  - intros cmd w p tk tks Hl Ht Hneg Hclock.
    assert (Hm : monitor idle_sec hard_sec (clock0 w) (ticks w) (popen w p)
                 = Some (Ret true, popen w p, [EvPrint Stderr hard_msg])).
    { rewrite Ht. cbn [monitor]. unfold iteration.
      rewrite hard_expired_true; [reflexivity|lia|].
      now apply negative_below_elapsed. }
    split; [exact Hm|].
    destruct (run_timed_out cmd idle_sec hard_sec w p _ _ Hl Hm) as (o & tr2 & Hrun & Ho).
    exists o, tr2. split; [exact Hrun|]. split; [exact Ho|].
    intros c Hc. destruct Ho as [->|(e & _ & _ & _ & Hw)]; [reflexivity|congruence].
  - intros start tk tks st Hneg Hhard Hready Hclock.
    cbn [monitor]. unfold iteration. rewrite Hhard, Hready.
    rewrite idle_expired_true; [reflexivity|lia|].
    now apply negative_below_elapsed.
Qed.

Lemma negative_bounds_fire_at_once_witness :
  (-1 < 0 /\ (clock0 w_echo <= 1 # 100)%Q)
  /\ monitor 0 (-1) (clock0 w_echo) (ticks w_echo) (popen w_echo 4242)
     = Some (Ret true, popen w_echo 4242, [EvPrint Stderr hard_msg]).
Proof.
  assert (H1 : -1 < 0) by reflexivity.
  assert (H2 : (clock0 w_echo <= 1 # 100)%Q) by (vm_compute; discriminate).
  split; [now split|].
  exact (proj1 (proj1 (negative_bounds_fire_at_once 0 (-1)) ["echo"; "hi"] w_echo 4242
                  _ _ eq_refl eq_refl H1 H2)).
Defined.

(** C10, as stated, fails: with [--hard -1] the run is marked timed out in
    the first pass and returns 124, yet the line the child wrote is relayed
    to stdout by the final drain before that return. *)
Lemma negative_hard_still_relays :
  run_with_timeouts ["echo"; "hi"] 0 (-1) w_echo
  = Some (Ret 124,
          [EvSpawn ["echo"; "hi"]; EvPrint Stderr hard_msg; EvSelClose;
           EvPoll (Some 0); EvRelay Stdout Stdout (text_line "hi")])
  /\ relayed Stdout
       [EvSpawn ["echo"; "hi"]; EvPrint Stderr hard_msg; EvSelClose;
        EvPoll (Some 0); EvRelay Stdout Stdout (text_line "hi")]
     = [text_line "hi"].
Proof. split; reflexivity. Qed.

(** ** A child that exits on its own *)

Section NaturalExit.

Variables idle_sec hard_sec : Z.
Variable start : Q.







Lemma readable_set_returncode (rc : option Z) (st : state) :
  readable st -> readable (set_returncode rc st).
Proof. intros H. exact H. Qed.



End NaturalExit.




(** * Further properties of the script *)

(** ** What each phase does *)

Section Phases.

Variables idle_sec hard_sec : Z.
Variable start : Q.

Lemma relay_ready_loop_events (evs : list (stream * Q)) :
  forall st, forallb loop_event (snd (relay_ready evs st)) = true.
Proof.
induction evs as [|[key t] evs IH]; intros st; cbn [relay_ready]; [reflexivity|].
destruct (readline key st) as [[ln|e] st1]; [|reflexivity].
destruct (Py.truthy_str ln); [|apply IH].
specialize (IH (set_last t st1)).
destruct (relay_ready evs (set_last t st1)) as [[o st2] tr]. exact IH.
Qed.

Lemma poll_break_loop_events (obs : option Z) (st : state) :
  forallb loop_event (snd (poll_break obs st)) = true.
Proof. unfold poll_break. destruct (poll obs st) as [[c|] st']; reflexivity. Qed.

(** A pass that marks a timeout prints one marker and nothing else; any
    other pass prints none. *)
Lemma iteration_marker (tk : tick) (st : state) :
  forallb loop_event (snd (iteration idle_sec hard_sec start tk st)) = true
  /\ match fst (iteration idle_sec hard_sec start tk st) with
     | Break true _ =>
         snd (iteration idle_sec hard_sec start tk st) = [EvPrint Stderr hard_msg]
         /\ hard_expired hard_sec start (now_top tk) = true
         \/ snd (iteration idle_sec hard_sec start tk st) = [EvPrint Stderr idle_msg]
            /\ ready tk = []
            /\ idle_expired idle_sec (last st) (now_idle tk) = true
     | _ => diagnostics (snd (iteration idle_sec hard_sec start tk st)) = []
     end.
Proof.
pose proof (iteration_diagnostics idle_sec hard_sec start tk st) as Hd.
revert Hd. unfold iteration.
destruct (hard_expired hard_sec start (now_top tk)).
{ intros _. split; [reflexivity|]. left. now split. }
destruct (ready tk) as [|ev evs].
- destruct (idle_expired idle_sec (last st) (now_idle tk)).
  + intros _. split; [reflexivity|]. right. now repeat split.
  + intros Hd. split; [apply poll_break_loop_events|].
    pose proof (poll_break_keeps (waited tk) st) as Hk.
    destruct (poll_break (waited tk) st) as [[st'|[] st'|e st'] tr];
      cbn [fst snd] in *; (exact Hd || (destruct Hk; discriminate)).
- pose proof (relay_ready_loop_events (ev :: evs) st) as H1.
  destruct (relay_ready (ev :: evs) st) as [[[[]|e] st1] tr]; cbn [fst snd] in *;
    [|intros Hd; now split].
  pose proof (poll_break_loop_events (waited tk) st1) as H2.
  pose proof (poll_break_keeps (waited tk) st1) as Hk.
  destruct (poll_break (waited tk) st1) as [fl tr']. cbn [fst snd] in *.
  intros Hd. split; [now rewrite forallb_app, H1, H2|].
  destruct fl as [st'|[] st'|e st']; (exact Hd || (destruct Hk; discriminate)).
Qed.

Lemma monitor_loop_events (tks : list tick) :
  forall st v st' tr,
    monitor idle_sec hard_sec start tks st = Some (v, st', tr) ->
    forallb loop_event tr = true.
Proof.
induction tks as [|tk tks IH]; intros st v st' tr H; [discriminate|].
cbn [monitor] in H. destruct (iteration_marker tk st) as [Hl _].
destruct (iteration idle_sec hard_sec start tk st) as [[st1|b st1|e st1] tr1];
  cbn [snd] in Hl.
- destruct (monitor idle_sec hard_sec start tks st1) as [[[b2 st2] tr2]|] eqn:E;
    [|discriminate].
  injection H as -> -> <-. rewrite forallb_app, Hl. exact (IH _ _ _ _ E).
- injection H as <- -> ->. exact Hl.
- injection H as <- -> ->. exact Hl.
Qed.

(** The marker is the last thing the loop does, and the pass that printed
    it is among the passes observed. *)
Lemma monitor_marker (tks : list tick) :
  forall st timed_out st' tr,
    monitor idle_sec hard_sec start tks st = Some (Ret timed_out, st', tr) ->
    if timed_out
    then exists pre m tk,
        tr = pre ++ [EvPrint Stderr m] /\ diagnostics pre = [] /\ In tk tks
        /\ (m = hard_msg /\ hard_expired hard_sec start (now_top tk) = true
            \/ m = idle_msg /\ ready tk = []
               /\ exists seen, idle_expired idle_sec seen (now_idle tk) = true)
    else diagnostics tr = [].
Proof.
induction tks as [|tk tks IH]; intros st timed_out st' tr H; [discriminate|].
cbn [monitor] in H. destruct (iteration_marker tk st) as [_ Hm].
destruct (iteration idle_sec hard_sec start tk st) as [[st1|b st1|e st1] tr1];
  cbn [fst snd] in Hm; [| |discriminate H].
- destruct (monitor idle_sec hard_sec start tks st1) as [[[b2 st2] tr2]|] eqn:E;
    [|discriminate].
  injection H as -> -> <-. specialize (IH _ _ _ _ E). destruct timed_out.
  + destruct IH as (pre & m & tk' & -> & Hpre & Hin & Hc).
    exists (tr1 ++ pre), m, tk'. rewrite app_assoc, diagnostics_app, Hm, Hpre.
    repeat split; [now right|exact Hc].
  + now rewrite diagnostics_app, Hm, IH.
- injection H as -> -> ->. destruct timed_out; [|exact Hm].
  destruct Hm as [[-> Hh]|(-> & Hr & Hi)].
  + exists [], hard_msg, tk. repeat split; [now left|]. left. now split.
  + exists [], idle_msg, tk. repeat split; [now left|]. right.
    repeat split; [exact Hr|]. now exists (last st).
Qed.

End Phases.

(** X1.  The loop prints a timeout marker exactly when it marks the run
    timed out: then the marker is the last thing the loop does, it goes to
    stderr, and it is the hard-limit or the idle-limit text, which differ;
    a loop that ends because the child exited prints nothing of its own. *)
Theorem loop_marker_iff_timeout :
  forall (idle_sec hard_sec : Z) (start : Q) (tks : list tick)
         (st st' : state) (timed_out : bool) (tr : list event),
    monitor idle_sec hard_sec start tks st = Some (Ret timed_out, st', tr) ->
    (timed_out = true ->
     exists pre m, tr = pre ++ [EvPrint Stderr m] /\ diagnostics pre = []
                   /\ (m = hard_msg \/ m = idle_msg))
    /\ (timed_out = false -> diagnostics tr = [])
    /\ hard_msg <> idle_msg.
Proof.
intros idle_sec hard_sec start tks st st' timed_out tr H.
pose proof (monitor_marker idle_sec hard_sec start tks st timed_out st' tr H) as Hm.
split; [|split; [|exact messages_differ]].
- intros ->. destruct Hm as (pre & m & tk & Htr & Hpre & _ & Hc).
  exists pre, m. repeat split; try assumption.
  destruct Hc as [[-> _]|[-> _]]; [now left|now right].
- intros ->. exact Hm.
Qed.

Lemma loop_marker_iff_timeout_witness :
  exists pre m,
    [EvPoll None; EvPrint Stderr hard_msg] = pre ++ [EvPrint Stderr m]
    /\ diagnostics pre = [] /\ (m = hard_msg \/ m = idle_msg).
Proof.
exact (proj1 (loop_marker_iff_timeout 0 1 0 silent_ticks (popen w_stuck 4242)
                (popen w_stuck 4242) true [EvPoll None; EvPrint Stderr hard_msg]
                eq_refl) eq_refl).
Defined.

(** ** After the loop *)

Section Closing.

Lemma flat_map_silent {B : Type} (P : event -> bool) (f : event -> list B)
      (tr : list event) :
  (forall e, P e = true -> f e = []) -> forallb P tr = true -> flat_map f tr = [].
Proof.
intros Hf. induction tr as [|e tr IH]; cbn; [reflexivity|].
intros H. apply andb_true_iff in H as [He Htr]. now rewrite (Hf e He), IH.
Qed.

Lemma loop_never_sleeps (tr : list event) :
  forallb loop_event tr = true -> sleeps tr = [] /\ spawns tr = [].
Proof.
intros H. split; (apply (flat_map_silent loop_event); [|exact H]);
  intros []; cbn; congruence.
Qed.

Lemma closing_never_prints (tr : list event) :
  forallb closing_event tr = true -> diagnostics tr = [] /\ spawns tr = [].
Proof.
intros H. split; (apply (flat_map_silent closing_event); [|exact H]);
  intros []; cbn; congruence.
Qed.

(** The grace loop: polls and sleeps of 200 ms, at most [n] of them, no signal. *)
Lemma grace_facts (n : nat) :
  forall obs st,
    forallb closing_event (snd (grace n obs st)) = true
    /\ signals (snd (grace n obs st)) = []
    /\ Forall (fun d => d = 2 # 10) (sleeps (snd (grace n obs st)))
    /\ (List.length (sleeps (snd (grace n obs st))) <= n)%nat
    /\ pid (fst (fst (grace n obs st))) = pid st.
Proof.
induction n as [|n IH]; intros obs st; cbn [grace].
- repeat split; (constructor || reflexivity).
- pose proof (poll_next_pid obs st) as Hp.
  destruct (poll_next obs st) as [[[c|] st1] obs1]; cbn [fst snd] in Hp.
  + cbn. repeat split; (lia || assumption || constructor).
  + destruct (IH obs1 st1) as (H1 & H2 & H3 & H4 & H5).
    destruct (grace n obs1 st1) as [[st2 obs2] tr]. cbn [fst snd] in *.
    change (sleeps (EvPoll None :: EvSleep (2 # 10) :: tr))
      with ((2 # 10) :: sleeps tr).
    change (signals (EvPoll None :: EvSleep (2 # 10) :: tr)) with (signals tr).
    split; [exact H1|]. split; [exact H2|]. split; [now constructor|].
    split; [cbn [List.length]; lia|congruence].
Qed.

(** The body of [try:]: SIGTERM first, then the grace loop, then at most one
    SIGKILL, all to the child's process group. *)
Lemma graceful_stop_facts (w : world) (st : state) :
  forallb closing_event (snd (graceful_stop w st)) = true
  /\ pid (snd (fst (graceful_stop w st))) = pid st
  /\ Forall (fun d => d = 2 # 10) (sleeps (snd (graceful_stop w st)))
  /\ (List.length (sleeps (snd (graceful_stop w st))) <= 10)%nat
  /\ (signals (snd (graceful_stop w st)) = [(pid st, SIGTERM)]
      \/ signals (snd (graceful_stop w st)) = [(pid st, SIGTERM); (pid st, SIGKILL)]
         /\ sigterm w = None).
Proof.
unfold graceful_stop. destruct (sigterm w) as [e|].
{ cbn. repeat split; (lia || (now left) || constructor). }
destruct (grace_facts 10 (grace_obs w) st) as (H1 & H2 & H3 & H4 & H5).
destruct (grace 10 (grace_obs w) st) as [[st1 obs1] tr1]. cbn [fst snd] in *.
pose proof (poll_next_pid obs1 st1) as Hp.
destruct (poll_next obs1 st1) as [[r st2] obs2]. cbn [fst snd] in Hp.
assert (Hc : forallb closing_event (EvKillpg (pid st) SIGTERM None :: tr1 ++ [EvPoll r])
             = true).
{ cbn [forallb closing_event andb]. now rewrite forallb_app, H1. }
assert (Hs : sleeps (EvKillpg (pid st) SIGTERM None :: tr1 ++ [EvPoll r]) = sleeps tr1).
{ change (sleeps (EvKillpg (pid st) SIGTERM None :: tr1 ++ [EvPoll r]))
    with (sleeps (tr1 ++ [EvPoll r])).
  rewrite sleeps_app. apply app_nil_r. }
assert (Hg : signals (EvKillpg (pid st) SIGTERM None :: tr1 ++ [EvPoll r])
             = [(pid st, SIGTERM)]).
{ change (signals (EvKillpg (pid st) SIGTERM None :: tr1 ++ [EvPoll r]))
    with ((pid st, SIGTERM) :: signals (tr1 ++ [EvPoll r])).
  now rewrite signals_app, H2. }
destruct r as [c|]; cbn [fst snd].
- rewrite Hs. repeat split; try assumption; try congruence. now left.
- pose proof (kill_tree_events (pid st2) SIGKILL (sigkill w)) as Hk.
  destruct (kill_tree (pid st2) SIGKILL (sigkill w)) as [o tr2].
  cbn [fst snd] in *. subst tr2.
  rewrite forallb_app, sleeps_app, signals_app, Hc, Hs, Hg, app_nil_r.
  repeat split; try assumption; try congruence.
  right. split; [|reflexivity]. cbn. now rewrite Hp, H5.
Qed.

(** The termination protocol as a whole. *)
Lemma terminate_facts (timed_out : bool) (w : world) (st : state) :
  forallb closing_event (snd (terminate timed_out w st)) = true
  /\ Forall (fun d => d = 2 # 10) (sleeps (snd (terminate timed_out w st)))
  /\ (List.length (sleeps (snd (terminate timed_out w st))) <= 10)%nat
  /\ (signals (snd (terminate timed_out w st)) = []
      \/ timed_out = true
         /\ (signals (snd (terminate timed_out w st)) = [(pid st, SIGTERM)]
             \/ signals (snd (terminate timed_out w st))
                = [(pid st, SIGTERM); (pid st, SIGKILL)]
             \/ signals (snd (terminate timed_out w st))
                = [(pid st, SIGTERM); (pid st, SIGKILL); (pid st, SIGKILL)])).
Proof.
unfold terminate. destruct timed_out.
2:{ cbn. repeat split; (lia || (now left) || constructor). }
pose proof (poll_pid (wait0 w) st) as Hp0.
destruct (poll (wait0 w) st) as [[c|] st0]; cbn [fst snd] in Hp0.
{ cbn. repeat split; (lia || (now left) || constructor). }
destruct (graceful_stop_facts w st0) as (H1 & H2 & H3 & H4 & H5).
rewrite Hp0 in H2, H5.
destruct (graceful_stop w st0) as [[[[]|e] st1] tr]; cbn [fst snd] in *.
- split; [exact H1|]. split; [exact H3|]. split; [exact H4|]. right.
  split; [reflexivity|].
  change (signals (EvPoll None :: tr)) with (signals tr).
  destruct H5 as [->|[-> _]]; [now left|right; now left].
- pose proof (kill_tree_events (pid st1) SIGKILL (sigkill_fallback w)) as Hk.
  destruct (kill_tree (pid st1) SIGKILL (sigkill_fallback w)) as [o tr'].
  cbn [fst snd] in *. subst tr'.
  change (sleeps (EvPoll None :: tr ++ [EvKillpg (pid st1) SIGKILL (sigkill_fallback w)]))
    with (sleeps (tr ++ [EvKillpg (pid st1) SIGKILL (sigkill_fallback w)])).
  change (signals (EvPoll None :: tr ++ [EvKillpg (pid st1) SIGKILL (sigkill_fallback w)]))
    with (signals (tr ++ [EvKillpg (pid st1) SIGKILL (sigkill_fallback w)])).
  rewrite sleeps_app, signals_app, app_nil_r, H2.
  split; [cbn [forallb closing_event andb]; now rewrite forallb_app, H1|].
  split; [exact H3|]. split; [exact H4|]. right. split; [reflexivity|].
  destruct H5 as [->|[-> _]]; [right; now left|right; now right].
Qed.

Lemma drain_closing (c : communicated) (st : state) :
  forallb closing_event (snd (drain c st)) = true /\ sleeps (snd (drain c st)) = [].
Proof.
destruct c; cbn; [|now split].
destruct (Py.truthy_str _), (Py.truthy_str _); now split.
Qed.

End Closing.

(** ** The trace of a whole run *)

Section RunShape.

Variable cmd : list string.
Variables idle_sec hard_sec : Z.
Variable w : world.

(** A run whose launch succeeded is the loop and the closing of the
    selector; then either the loop's exception leaves, or the termination
    protocol follows and, unless it raised, the drain. *)
Lemma run_shape (p : Z) (o : outcome Z) (tr : list event) :
  launch w = Ret p ->
  run_with_timeouts cmd idle_sec hard_sec w = Some (o, tr) ->
  exists v st1 tr1 after,
    monitor idle_sec hard_sec (clock0 w) (ticks w) (popen w p) = Some (v, st1, tr1)
    /\ tr = EvSpawn cmd :: tr1 ++ EvSelClose :: after
    /\ match v with
       | Raise e => o = Raise e /\ after = []
       | Ret timed_out =>
           pid st1 = p
           /\ exists tr3,
               after = snd (terminate timed_out w st1) ++ tr3
               /\ forallb closing_event tr3 = true /\ sleeps tr3 = []
               /\ signals tr3 = []
               /\ match o with
                  | Ret r =>
                      r = result_code timed_out
                            (returncode
                               (fst (drain (comm w)
                                       (snd (fst (terminate timed_out w st1))))))
                  | Raise e => fst (fst (terminate timed_out w st1)) = Raise e
                  end
       end.
Proof.
intros Hl. unfold run_with_timeouts. rewrite Hl.
destruct (monitor idle_sec hard_sec (clock0 w) (ticks w) (popen w p))
  as [[[[timed_out|e] st1] tr1]|] eqn:Hm; [| |discriminate].
2:{ intros Hrun. injection Hrun as <- <-. exists (Raise e), st1, tr1, [].
    split; [reflexivity|]. split; [reflexivity|now split]. }
destruct (monitor_keeps _ _ _ _ _ _ _ _ Hm) as [Hp _].
destruct (terminate timed_out w st1) as [[[[]|e] st2] tr2] eqn:Ht.
- destruct (drain_closing (comm w) st2) as [D1 D2].
  pose proof (drain_signals (comm w) st2) as D3.
  destruct (drain (comm w) st2) as [st3 tr3] eqn:Hd. cbn [fst snd] in *.
  intros Hrun. injection Hrun as <- <-.
  exists (Ret timed_out), st1, tr1, (tr2 ++ tr3).
  split; [reflexivity|]. split.
  { cbn. now rewrite <- !app_assoc. }
  split; [exact Hp|]. exists tr3. rewrite Ht. cbn [fst snd]. rewrite Hd.
  now repeat split.
- intros Hrun. injection Hrun as <- <-.
  exists (Ret timed_out), st1, tr1, tr2.
  split; [reflexivity|]. split.
  { cbn. now rewrite <- !app_assoc. }
  split; [exact Hp|]. exists []. rewrite Ht. cbn [fst snd].
  rewrite app_nil_r. now repeat split.
Qed.

(** What follows the closing of the selector. *)
Lemma run_closing (p : Z) (o : outcome Z) (tr : list event) :
  launch w = Ret p ->
  run_with_timeouts cmd idle_sec hard_sec w = Some (o, tr) ->
  exists before after,
    tr = EvSpawn cmd :: before ++ EvSelClose :: after
    /\ forallb loop_event before = true /\ signals before = []
    /\ forallb closing_event after = true
    /\ Forall (fun d => d = 2 # 10) (sleeps after)
    /\ (List.length (sleeps after) <= 10)%nat
    /\ (signals after = []
        \/ signals after = [(p, SIGTERM)]
        \/ signals after = [(p, SIGTERM); (p, SIGKILL)]
        \/ signals after = [(p, SIGTERM); (p, SIGKILL); (p, SIGKILL)]).
Proof.
intros Hl Hrun.
destruct (run_shape p o tr Hl Hrun) as (v & st1 & tr1 & after & Hm & -> & Hv).
exists tr1, after. split; [reflexivity|].
split; [exact (monitor_loop_events _ _ _ _ _ _ _ _ Hm)|].
split; [exact (monitor_signals _ _ _ _ _ _ _ _ Hm)|].
destruct v as [timed_out|e].
- destruct Hv as (Hp & tr3 & -> & H3 & S3 & G3 & _).
  destruct (terminate_facts timed_out w st1) as (Hc & Hf & Hn & Hsig).
  rewrite forallb_app, sleeps_app, signals_app, Hc, H3, S3, G3, !app_nil_r, Hp in *.
  split; [reflexivity|]. split; [exact Hf|]. split; [exact Hn|].
  destruct Hsig as [ -> | [_ [ -> | [ -> | -> ] ] ] ]; auto.
- destruct Hv as [_ ->]. cbn. repeat split; (lia || (now left) || constructor).
Qed.

End RunShape.

(** X2.  In every run whose launch succeeded the child is spawned once, as
    the first effect; the selector is closed once, after the loop; before
    the close the supervisor only reads, relays, prints its marker and
    polls (no sleep, no signal), and after it only polls, signals, sleeps
    and drains (no marker, no second spawn). *)
Theorem run_phases_in_order :
  forall (cmd : list string) (idle_sec hard_sec : Z) (w : world)
         (p : Z) (o : outcome Z) (tr : list event),
    launch w = Ret p ->
    run_with_timeouts cmd idle_sec hard_sec w = Some (o, tr) ->
    exists before after,
      tr = EvSpawn cmd :: before ++ EvSelClose :: after
      /\ forallb loop_event before = true
      /\ forallb closing_event after = true
      /\ spawns tr = [cmd]
      /\ signals before = [] /\ sleeps before = []
      /\ diagnostics after = [].
Proof.
intros cmd idle_sec hard_sec w p o tr Hl Hrun.
destruct (run_closing cmd idle_sec hard_sec w p o tr Hl Hrun)
  as (before & after & -> & Hloop & Hsig & Hafter & _).
exists before, after.
split; [reflexivity|]. split; [exact Hloop|]. split; [exact Hafter|].
destruct (loop_never_sleeps before Hloop) as [Hs Hsp].
destruct (closing_never_prints _ Hafter) as [Hd Hsp'].
split.
- unfold spawns in *. cbn [flat_map app]. rewrite flat_map_app, Hsp.
  cbn [flat_map app]. now rewrite Hsp'.
- split; [exact Hsig|]. now split.
Qed.

Lemma run_phases_in_order_witness :
  exists before after,
    [EvSpawn ["sleep"; "60"]; EvPrint Stderr idle_msg; EvSelClose; EvPoll None;
     EvKillpg 4242 SIGTERM (Some PermissionError); EvKillpg 4242 SIGKILL None]
    = EvSpawn ["sleep"; "60"] :: before ++ EvSelClose :: after
    /\ forallb loop_event before = true
    /\ forallb closing_event after = true
    /\ spawns
         [EvSpawn ["sleep"; "60"]; EvPrint Stderr idle_msg; EvSelClose; EvPoll None;
          EvKillpg 4242 SIGTERM (Some PermissionError); EvKillpg 4242 SIGKILL None]
       = [["sleep"; "60"]]
    /\ signals before = [] /\ sleeps before = []
    /\ diagnostics after = [].
Proof.
exact (run_phases_in_order ["sleep"; "60"] 1 0 w_term_refused 4242 (Ret 124) _
         eq_refl eq_refl).
Defined.

(** X3.  Whatever happens, a run sends at most three signals, every one
    of them to the process group of the child it spawned: nothing, or
    SIGTERM, or SIGTERM then SIGKILL, or SIGTERM then SIGKILL twice. *)
Theorem signals_only_to_child_group :
  forall (cmd : list string) (idle_sec hard_sec : Z) (w : world)
         (p : Z) (o : outcome Z) (tr : list event),
    launch w = Ret p ->
    run_with_timeouts cmd idle_sec hard_sec w = Some (o, tr) ->
    signals tr = []
    \/ signals tr = [(p, SIGTERM)]
    \/ signals tr = [(p, SIGTERM); (p, SIGKILL)]
    \/ signals tr = [(p, SIGTERM); (p, SIGKILL); (p, SIGKILL)].
Proof.
intros cmd idle_sec hard_sec w p o tr Hl Hrun.
destruct (run_closing cmd idle_sec hard_sec w p o tr Hl Hrun)
  as (before & after & -> & _ & Hsig & _ & _ & _ & Hshape).
assert (Heq : signals (EvSpawn cmd :: before ++ EvSelClose :: after) = signals after).
{ change (EvSpawn cmd :: before ++ EvSelClose :: after)
    with ([EvSpawn cmd] ++ before ++ [EvSelClose] ++ after).
  now rewrite !signals_app, Hsig. }
rewrite Heq. exact Hshape.
Qed.

Lemma signals_only_to_child_group_witness :
  launch w_stubborn = Ret 4242
  /\ (signals ([EvSpawn ["sleep"; "60"]; EvPrint Stderr idle_msg; EvSelClose;
                EvPoll None; EvKillpg 4242 SIGTERM None]
               ++ grace_window 10 ++ [EvPoll None; EvKillpg 4242 SIGKILL None]) = []
      \/ signals ([EvSpawn ["sleep"; "60"]; EvPrint Stderr idle_msg; EvSelClose;
                   EvPoll None; EvKillpg 4242 SIGTERM None]
                  ++ grace_window 10 ++ [EvPoll None; EvKillpg 4242 SIGKILL None])
         = [(4242, SIGTERM)]
      \/ signals ([EvSpawn ["sleep"; "60"]; EvPrint Stderr idle_msg; EvSelClose;
                   EvPoll None; EvKillpg 4242 SIGTERM None]
                  ++ grace_window 10 ++ [EvPoll None; EvKillpg 4242 SIGKILL None])
         = [(4242, SIGTERM); (4242, SIGKILL)]
      \/ signals ([EvSpawn ["sleep"; "60"]; EvPrint Stderr idle_msg; EvSelClose;
                   EvPoll None; EvKillpg 4242 SIGTERM None]
                  ++ grace_window 10 ++ [EvPoll None; EvKillpg 4242 SIGKILL None])
         = [(4242, SIGTERM); (4242, SIGKILL); (4242, SIGKILL)]).
Proof.
split; [reflexivity|].
exact (signals_only_to_child_group ["sleep"; "60"] 1 0 w_stubborn 4242 (Ret 124) _
         eq_refl eq_refl).
Defined.

(** X4.  The only sleeps of a run are those of the grace window: each lasts
    200 ms and there are at most ten, so a run never sleeps more than two
    seconds in all. *)
Theorem run_sleeps_at_most_two_seconds :
  forall (cmd : list string) (idle_sec hard_sec : Z) (w : world)
         (o : outcome Z) (tr : list event),
    run_with_timeouts cmd idle_sec hard_sec w = Some (o, tr) ->
    Forall (fun d => d = 2 # 10) (sleeps tr)
    /\ (List.length (sleeps tr) <= 10)%nat.
Proof.
intros cmd idle_sec hard_sec w o tr Hrun.
destruct (launch w) as [p|e] eqn:Hl.
2:{ rewrite (run_launch_failure cmd idle_sec hard_sec w e Hl) in Hrun.
    injection Hrun as <- <-. split; [constructor|cbn; lia]. }
destruct (run_closing cmd idle_sec hard_sec w p o tr Hl Hrun)
  as (before & after & -> & Hloop & _ & _ & Hf & Hn & _).
destruct (loop_never_sleeps before Hloop) as [Hs _].
assert (Heq : sleeps (EvSpawn cmd :: before ++ EvSelClose :: after) = sleeps after).
{ change (EvSpawn cmd :: before ++ EvSelClose :: after)
    with ([EvSpawn cmd] ++ before ++ [EvSelClose] ++ after).
  now rewrite !sleeps_app, Hs. }
rewrite Heq. now split.
Qed.

Lemma run_sleeps_at_most_two_seconds_witness :
  Forall (fun d => d = 2 # 10)
    (sleeps ([EvSpawn ["sleep"; "60"]; EvPrint Stderr idle_msg; EvSelClose;
              EvPoll None; EvKillpg 4242 SIGTERM None]
             ++ grace_window 10 ++ [EvPoll None; EvKillpg 4242 SIGKILL None]))
  /\ (List.length
        (sleeps ([EvSpawn ["sleep"; "60"]; EvPrint Stderr idle_msg; EvSelClose;
                  EvPoll None; EvKillpg 4242 SIGTERM None]
                 ++ grace_window 10 ++ [EvPoll None; EvKillpg 4242 SIGKILL None]))
      <= 10)%nat.
Proof.
exact (run_sleeps_at_most_two_seconds ["sleep"; "60"] 1 0 w_stubborn (Ret 124) _ eq_refl).
Defined.

(** ** When the loop does not end, and when it cannot time out *)

Section LoopEnds.

Variables idle_sec hard_sec : Z.
Variable start : Q.

Lemma gt_false (x : Q) (n : Z) : (x <= inject_Z n)%Q -> Py.gt x n = false.
Proof.
intros H. destruct (Py.gt x n) eqn:E; [|reflexivity].
apply gt_true in E. exfalso. exact (Qlt_not_le _ _ E H).
Qed.



End LoopEnds.





(** X7.  With the idle timeout disabled, a loop whose every pass begins no
    later than [hard_sec] seconds after launch never marks a timeout: the
    hard limit fires only when it is strictly exceeded, not when it is
    reached. *)
Theorem no_timeout_within_hard_limit :
  forall (hard_sec : Z) (start : Q) (tks : list tick)
         (st st' : state) (timed_out : bool) (tr : list event),
    Forall (within_hard hard_sec start) tks ->
    monitor 0 hard_sec start tks st = Some (Ret timed_out, st', tr) ->
    timed_out = false.
Proof.
intros hard_sec start tks st st' timed_out tr Hall Hm.
pose proof (monitor_marker 0 hard_sec start tks _ _ _ _ Hm) as Hmark.
destruct timed_out; [|reflexivity]. exfalso.
destruct Hmark as (_ & _ & tk & _ & _ & Hin & [[_ Hh]|(_ & _ & seen & Hi)]);
  [|discriminate Hi].
rewrite Forall_forall in Hall. specialize (Hall tk Hin). unfold within_hard in Hall.
unfold hard_expired in Hh. apply andb_true_iff in Hh as [_ Hgt].
rewrite (gt_false _ _ Hall) in Hgt. discriminate.
Qed.

Lemma no_timeout_within_hard_limit_witness :
  Forall (within_hard 1 0) (ticks w_on_time)
  /\ match monitor 0 1 0 (ticks w_on_time) (popen w_on_time 4242) with
     | Some (Ret timed_out, _, _) => timed_out = false
     | _ => False
     end.
Proof.
assert (H : Forall (within_hard 1 0) (ticks w_on_time)).
{ constructor; [|constructor]. unfold within_hard. cbn. discriminate. }
split; [exact H|].
destruct (monitor 0 1 0 (ticks w_on_time) (popen w_on_time 4242))
  as [[[[timed_out|e] st'] tr]|] eqn:E; [|discriminate E|discriminate E].
exact (no_timeout_within_hard_limit 1 0 (ticks w_on_time) (popen w_on_time 4242)
         st' timed_out tr H E).
Defined.

(** ** The command line *)

Section CommandLine.

Lemma after_dashdash_split (pre rest : list string) :
  ~ In "--" pre -> after_dashdash (pre ++ "--" :: rest) = Some rest.
Proof.
induction pre as [|x pre IH]; intros Hnot; cbn [app after_dashdash].
- now rewrite String.eqb_refl.
- destruct (String.eqb_spec x "--") as [->|_].
  + exfalso. apply Hnot. now left.
  + apply IH. intros Hin. apply Hnot. now right.
Qed.

Lemma after_dashdash_absent (argv : list string) :
  ~ In "--" argv -> after_dashdash argv = None.
Proof.
induction argv as [|x argv IH]; intros Hnot; cbn [after_dashdash]; [reflexivity|].
destruct (String.eqb_spec x "--") as [->|_].
- exfalso. apply Hnot. now left.
- apply IH. intros Hin. apply Hnot. now right.
Qed.

Lemma resolve_at_separator (a : args) (pre rest : list string) :
  Py.truthy_opt_list (cmd_of_dashdash (dashdash a)) = false ->
  ~ In "--" pre ->
  resolve_cmd a (pre ++ "--" :: rest) = Some rest.
Proof.
intros Hnone Hnot. unfold resolve_cmd.
now rewrite Hnone, (after_dashdash_split pre rest Hnot).
Qed.

Lemma resolve_without_separator (a : args) (argv : list string) :
  Py.truthy_opt_list (cmd_of_dashdash (dashdash a)) = false ->
  ~ In "--" argv ->
  Py.truthy_opt_list (resolve_cmd a argv) = false.
Proof.
intros Hnone Hnot. unfold resolve_cmd.
now rewrite Hnone, (after_dashdash_absent argv Hnot).
Qed.


End CommandLine.

(** X8.  When [parse_known_args] captured no command, the command is what
    follows the first ["--"] of [sys.argv], word for word, later ["--"]
    words included; and when [sys.argv] holds no ["--"] there is no command,
    whatever other words it holds. *)
Theorem command_follows_first_separator :
  forall (a : args),
    Py.truthy_opt_list (cmd_of_dashdash (dashdash a)) = false ->
    (forall pre rest, ~ In "--" pre -> resolve_cmd a (pre ++ "--" :: rest) = Some rest)
    /\ (forall argv, ~ In "--" argv -> Py.truthy_opt_list (resolve_cmd a argv) = false).
Proof.
intros a Hnone. split.
- intros pre rest. now apply resolve_at_separator.
- intros argv. now apply resolve_without_separator.
Qed.

Lemma command_follows_first_separator_witness :
  resolve_cmd (args_of 5 0)
    (["with-timeout.py"; "--idle"; "5"] ++ "--" :: ["git"; "log"; "--"; "README.md"])
  = Some ["git"; "log"; "--"; "README.md"]
  /\ Py.truthy_opt_list (resolve_cmd (args_of 5 0) ["with-timeout.py"; "echo"; "hi"])
     = false.
Proof.
destruct (command_follows_first_separator (args_of 5 0) eq_refl) as [H1 H2].
split.
- apply H1. intros [H|[H|[H|[]]]]; discriminate H.
- apply H2. intros [H|[H|[H|[]]]]; discriminate H.
Defined.

(** X9.  When [parse_known_args] captured no command in [args.dashdash],
    [main] launches at most one child, and only for a command given after
    the separator: with one it spawns exactly that command with the parsed
    [--idle] and [--hard] and ends in [sys.exit] of the run's return value
    or in the run's exception, never by returning; with no ["--"] in
    [sys.argv] it prints the usage line and launches nothing, whatever
    other words were given. *)
Theorem main_runs_the_given_command :
  forall (a : args) (w : world),
    Py.truthy_opt_list (cmd_of_dashdash (dashdash a)) = false ->
    (forall pre c cs p e tr,
        ~ In "--" pre -> launch w = Ret p ->
        main a (pre ++ "--" :: c :: cs) w = Some (e, tr) ->
        spawns tr = [c :: cs]
        /\ exists r,
            run_with_timeouts (c :: cs) (idle a) (hard a) w = Some (r, tr)
            /\ e = match r with Ret rc => SysExit rc | Raise x => Uncaught x end)
    /\ (forall argv,
           ~ In "--" argv ->
           main a argv w = Some (Returned 2, [EvPrint Stderr usage_msg])).
Proof.
intros a w Hnone. split.
- intros pre c cs p e tr Hnot Hl.
  rewrite (main_runs a _ w c cs (resolve_at_separator a pre (c :: cs) Hnone Hnot)).
  destruct (run_with_timeouts (c :: cs) (idle a) (hard a) w) as [[r tr']|] eqn:Hrun;
    [|discriminate].
  intros H.
  assert (Hboth : tr' = tr
                  /\ e = match r with Ret rc => SysExit rc | Raise x => Uncaught x end).
  { destruct r; cbn in H; injection H as <- <-; now split. }
  destruct Hboth as [-> He]. split.
  + destruct (run_closing _ _ _ _ _ _ _ Hl Hrun)
      as (before & after & -> & Hloop & _ & Hafter & _).
    destruct (loop_never_sleeps before Hloop) as [_ Hsp].
    destruct (closing_never_prints _ Hafter) as [_ Hsp'].
    unfold spawns in *. cbn [flat_map app]. rewrite flat_map_app, Hsp.
    cbn [flat_map app]. now rewrite Hsp'.
  + exists r. now split.
- intros argv Hnot. apply main_usage. now apply resolve_without_separator.
Qed.

Lemma main_runs_the_given_command_witness :
  spawns [EvSpawn ["sh"; "hello.sh"];
          EvRelay Stdout Stdout (text_line "a"); EvFlush Stdout;
          EvRelay Stderr Stderr (text_line "e"); EvFlush Stderr;
          EvPoll None; EvPoll (Some 3); EvSelClose]
  = [["sh"; "hello.sh"]]
  /\ main (args_of 5 5) ["with-timeout.py"; "sh"; "hello.sh"] w_hello
     = Some (Returned 2, [EvPrint Stderr usage_msg]).
Proof.
destruct (main_runs_the_given_command (args_of 5 5) w_hello eq_refl) as [H1 H2].
split.
- refine (proj1 (H1 ["with-timeout.py"; "--idle"; "5"; "--hard"; "5"] "sh" ["hello.sh"]
                    4242 (SysExit 3) _ _ eq_refl eq_refl)).
  intros [H|[H|[H|[H|[H|[]]]]]]; discriminate H.
- apply H2. intros [H|[H|[H|[]]]]; discriminate H.
Defined.



(** ** What one pass reads *)

Section OnePass.

Variable s : stream.

Lemma occurrences_cons (key : stream) (t : Q) (evs : list (stream * Q)) :
  occurrences s ((key, t) :: evs)
  = ((if stream_eqb key s then 1 else 0) + occurrences s evs)%nat.
Proof. unfold occurrences. cbn. destruct (stream_eqb key s); reflexivity. Qed.

Lemma relay_ready_one_line (evs : list (stream * Q)) :
  forall st,
    (List.length (rest_of s st)
     <= List.length (rest_of s (snd (fst (relay_ready evs st)))) + occurrences s evs)%nat
    /\ (List.length (relayed s (snd (relay_ready evs st))) <= occurrences s evs)%nat
    /\ (List.length (rest_of s (snd (fst (relay_ready evs st))))
        <= List.length (rest_of s st))%nat.
Proof.
induction evs as [|[key t] evs IH]; intros st.
- cbn. lia.
- cbn [relay_ready]. unfold readline. rewrite occurrences_cons.
  destruct (rest_of key st) as [|[l|e] ls] eqn:E.
  + cbn [Py.truthy_str]. destruct (IH st) as (A & B & C). lia.
  + destruct (Py.truthy_str l).
    * specialize (IH (set_last t (set_rest key ls st))).
      destruct (relay_ready evs (set_last t (set_rest key ls st))) as [[o st2] tr].
      cbn [fst snd] in *. rewrite set_last_rest in IH.
      change (relayed s (EvRelay key (sink key) l :: EvFlush (sink key) :: tr))
        with ((if stream_eqb (sink key) s then [l] else []) ++ relayed s tr).
      destruct key, s;
        cbn [sink stream_eqb app rest_of set_rest out_rest err_rest] in *;
        rewrite ?E in *; cbn [List.length] in *; lia.
    * specialize (IH (set_rest key ls st)).
      destruct key, s;
        cbn [sink stream_eqb app rest_of set_rest out_rest err_rest] in *;
        rewrite ?E in *; cbn [List.length] in *; lia.
  + cbn [fst snd]. change (relayed s []) with (@nil string).
    destruct key, s;
      cbn [stream_eqb rest_of set_rest out_rest err_rest] in *;
      rewrite ?E in *; cbn [List.length] in *; lia.
Qed.

Lemma poll_break_reads_nothing (obs : option Z) (st : state) :
  rest_of s (flow_state (fst (poll_break obs st))) = rest_of s st
  /\ relayed s (snd (poll_break obs st)) = []
  /\ last (flow_state (fst (poll_break obs st))) = last st.
Proof.
unfold poll_break, poll. destruct (returncode st) as [c|].
- now repeat split.
- destruct obs; cbn; repeat split; now destruct s.
Qed.

End OnePass.

Section IdleClock.

(** The idle clock moves only when a line is relayed. *)
Lemma relay_ready_last (evs : list (stream * Q)) :
  forall st,
    relayed Stdout (snd (relay_ready evs st)) = [] ->
    relayed Stderr (snd (relay_ready evs st)) = [] ->
    last (snd (fst (relay_ready evs st))) = last st.
Proof.
induction evs as [|[key t] evs IH]; intros st; cbn [relay_ready]; [reflexivity|].
unfold readline. destruct (rest_of key st) as [|[l|e] ls].
- cbn [Py.truthy_str]. apply IH.
- destruct (Py.truthy_str l).
  + destruct (relay_ready evs (set_last t (set_rest key ls st))) as [[o st2] tr].
    cbn [fst snd]. destruct key; cbn; discriminate.
  + intros H1 H2. rewrite (IH _ H1 H2). now destruct key.
- intros _ _. now destruct key.
Qed.

End IdleClock.

(** X11.  In one pass the loop takes from each of the child's streams at
    most one line for each time the selector listed that stream as ready,
    relays at most that many texts from it, and never puts anything back. *)
Theorem one_line_per_ready_key :
  forall (idle_sec hard_sec : Z) (start : Q) (tk : tick) (st : state) (s : stream),
    (List.length (rest_of s st)
     <= List.length
          (rest_of s (flow_state (fst (iteration idle_sec hard_sec start tk st))))
        + occurrences s (ready tk))%nat
    /\ (List.length (relayed s (snd (iteration idle_sec hard_sec start tk st)))
        <= occurrences s (ready tk))%nat
    /\ (List.length
          (rest_of s (flow_state (fst (iteration idle_sec hard_sec start tk st))))
        <= List.length (rest_of s st))%nat.
Proof.
intros idle_sec hard_sec start tk st s. unfold iteration.
destruct (hard_expired hard_sec start (now_top tk)); [cbn; lia|].
destruct (ready tk) as [|ev evs].
- destruct (idle_expired idle_sec (last st) (now_idle tk)); [cbn; lia|].
  destruct (poll_break_reads_nothing s (waited tk) st) as (-> & -> & _). cbn. lia.
- destruct (relay_ready_one_line s (ev :: evs) st) as (A & B & C).
  destruct (relay_ready (ev :: evs) st) as [[[[]|e] st1] tr]; cbn [fst snd] in *.
  + destruct (poll_break_reads_nothing s (waited tk) st1) as (Hr & Hn & _).
    destruct (poll_break (waited tk) st1) as [fl tr']. cbn [fst snd] in *.
    rewrite relayed_app, Hn, app_nil_r, Hr. lia.
  + cbn [flow_state]. lia.
Qed.

(** X12.  The idle clock [last] moves only when a line is relayed: a pass
    that relays nothing, because nothing was ready or because every ready
    stream gave an empty read (end of file), leaves it where it was. *)
Theorem idle_clock_moves_only_on_output :
  forall (idle_sec hard_sec : Z) (start : Q) (tk : tick) (st : state),
    relayed Stdout (snd (iteration idle_sec hard_sec start tk st)) = [] ->
    relayed Stderr (snd (iteration idle_sec hard_sec start tk st)) = [] ->
    last (flow_state (fst (iteration idle_sec hard_sec start tk st))) = last st.
Proof.
intros idle_sec hard_sec start tk st. unfold iteration.
destruct (hard_expired hard_sec start (now_top tk)); [reflexivity|].
destruct (ready tk) as [|ev evs].
- destruct (idle_expired idle_sec (last st) (now_idle tk)); [reflexivity|].
  intros _ _. apply (poll_break_reads_nothing Stdout).
- pose proof (relay_ready_last (ev :: evs) st) as Hl.
  destruct (relay_ready (ev :: evs) st) as [[[[]|e] st1] tr]; cbn [fst snd] in *.
  + destruct (poll_break_reads_nothing Stdout (waited tk) st1) as (_ & _ & Hp).
    destruct (poll_break (waited tk) st1) as [fl tr']. cbn [fst snd] in *.
    rewrite !relayed_app. intros H1 H2.
    apply app_eq_nil in H1 as [H1 _]. apply app_eq_nil in H2 as [H2 _].
    rewrite Hp. now apply Hl.
  + cbn [flow_state]. exact Hl.
Qed.

Lemma idle_clock_moves_only_on_output_witness :
  last (flow_state
          (fst (iteration 5 0 0
                  {| now_top := 50 # 1; ready := [(Stdout, 50 # 1); (Stderr, 50 # 1)];
                     now_idle := 50 # 1; waited := None |}
                  (popen w_stuck 4242))))
  = last (popen w_stuck 4242).
Proof.
exact (idle_clock_moves_only_on_output 5 0 0
         {| now_top := 50 # 1; ready := [(Stdout, 50 # 1); (Stderr, 50 # 1)];
            now_idle := 50 # 1; waited := None |}
         (popen w_stuck 4242) eq_refl eq_refl).
Defined.
